(** * A shallow embedding of the claim-workflow engine (src/test.py)

    The engine keeps, per workflow instance, an execution state (a bag of
    collected inputs plus a transient [meta] dict), an audit projection
    ([InstanceMeta]), an append-only event log and a global index of
    instance ids, all in a namespaced key-value store.  Every [start] and
    [resume] re-runs the fixed step graph from its entry step.

    Effects: [datetime.now] is a clock ([Clock]) read by [now_iso]; the store
    and the clock form the [World]; exceptions are kept with the world as it
    stood when they were raised, as Python leaves earlier writes in place. *)

From Stdlib Require Import String List Bool ZArith Lia.
From Stdlib Require Import Sorting.Permutation Sorting.Sorted.
Import ListNotations.
Open Scope string_scope.
Set Warnings "-register-all".

(* ================================================================== *)
(** ** Python values, dicts and truthiness *)

(** The values a bag can hold: the JSON-like values the callers pass in
    [updates] (floats are left out). *)
Inductive Value : Type :=
| VNone
| VBool (b : bool)
| VInt (z : Z)
| VStr (s : string)
| VList (l : list Value)
| VDict (d : list (string * Value)).

(** A Python dict as an association list in insertion order, without
    duplicate keys. *)
Definition Dict := list (string * Value).

(** [d.get(k)] *)
Fixpoint dict_get (k : string) (d : Dict) : option Value :=
  match d with
  | [] => None
  | (k', v) :: d' => if String.eqb k k' then Some v else dict_get k d'
  end.

(** [k in d] *)
Definition dict_mem (k : string) (d : Dict) : bool :=
  match dict_get k d with Some _ => true | None => false end.

(** [d[k] = v]: overwrite in place, or append a new key at the end. *)
Fixpoint dict_set (k : string) (v : Value) (d : Dict) : Dict :=
  match d with
  | [] => [(k, v)]
  | (k', v') :: d' =>
      if String.eqb k k' then (k', v) :: d' else (k', v') :: dict_set k v d'
  end.

(** [d.update(u)] *)
Definition dict_update (d u : Dict) : Dict :=
  fold_left (fun acc kv => dict_set (fst kv) (snd kv) acc) u d.

(** Python truthiness of a value ([if v:]). *)
Definition truthy (v : Value) : bool :=
  match v with
  | VNone => false
  | VBool b => b
  | VInt z => negb (Z.eqb z 0)
  | VStr s => negb (String.eqb s "")
  | VList l => match l with [] => false | _ => true end
  | VDict d => match d with [] => false | _ => true end
  end.

(** Truthiness of an [Optional[str]] ([None] and [""] are falsy). *)
Definition truthy_opt (o : option string) : bool :=
  match o with Some s => negb (String.eqb s "") | None => false end.

(** [d.get(k) == "lit"] *)
Definition get_is (k lit : string) (d : Dict) : bool :=
  match dict_get k d with Some (VStr s) => String.eqb s lit | _ => false end.

(* ================================================================== *)
(** ** The clock *)

(** [tick] counts the calls of [now_iso] so far; [wall n] is the ISO
    timestamp the n-th call returns. *)
Record Clock : Type := mkClock { tick : nat; wall : nat -> string }.

Definition Clk (A : Type) : Type := Clock -> A * Clock.

Definition cret {A} (a : A) : Clk A := fun c => (a, c).
Definition cbind {A B} (m : Clk A) (f : A -> Clk B) : Clk B :=
  fun c => let (a, c') := m c in f a c'.

Notation "x <-c m ;; k" := (cbind m (fun x => k))
  (at level 61, m at next level, right associativity).

(** [now_iso()] *)
Definition now_iso : Clk string :=
  fun c => (wall c (tick c), mkClock (S (tick c)) (wall c)).

(* ================================================================== *)
(** ** Execution state *)

(** The transient [meta] dict of an execution state; a missing key is
    [None]. *)
Record SMeta : Type := mkSMeta {
  sm_status : option string;
  sm_last_node : option string;
  sm_start_time : option string;
  sm_end_time : option string }.

(** The execution state dict [{instance_id, customer_id, workflow_name,
    bag, meta}]. *)
Record ExecState : Type := mkExecState {
  es_instance_id : string;
  es_customer_id : string;
  es_workflow_name : string;
  es_bag : Dict;
  es_meta : SMeta }.

Definition set_bag (b : Dict) (s : ExecState) : ExecState :=
  mkExecState (es_instance_id s) (es_customer_id s) (es_workflow_name s)
    b (es_meta s).

Definition set_meta (m : SMeta) (s : ExecState) : ExecState :=
  mkExecState (es_instance_id s) (es_customer_id s) (es_workflow_name s)
    (es_bag s) m.

(** [s["meta"]["status"] = st] *)
Definition set_status (st : string) (s : ExecState) : ExecState :=
  let m := es_meta s in
  set_meta (mkSMeta (Some st) (sm_last_node m) (sm_start_time m)
              (sm_end_time m)) s.

(** [s["meta"]["last_node"] = n] *)
Definition set_last_node (n : string) (s : ExecState) : ExecState :=
  let m := es_meta s in
  set_meta (mkSMeta (sm_status m) (Some n) (sm_start_time m)
              (sm_end_time m)) s.

(** [s["meta"]["end_time"] = t] *)
Definition set_end_time (t : string) (s : ExecState) : ExecState :=
  let m := es_meta s in
  set_meta (mkSMeta (sm_status m) (sm_last_node m) (sm_start_time m)
              (Some t)) s.

(** [s["bag"]["result"] = v] *)
Definition set_result (v : Value) (s : ExecState) : ExecState :=
  set_bag (dict_set "result" v (es_bag s)) s.

(* ================================================================== *)
(** ** The step graph ([build_claim_workflow]) *)

Inductive Node : Type :=
| ValidateRequest
| GatherClaimInfo
| IdentifyAccounts
| CancelRequest
| HoldRequest
| ApplySuppression
| FulfillCase.

Definition node_name (n : Node) : string :=
  match n with
  | ValidateRequest => "Validate Request"
  | GatherClaimInfo => "Gather Claim Info"
  | IdentifyAccounts => "Identify Accounts & Process Decision"
  | CancelRequest => "Cancel CWD Request"
  | HoldRequest => "Hold Request"
  | ApplySuppression => "Apply Temporary Suppression"
  | FulfillCase => "Fulfill Case and Detect"
  end.

(** What a step function returns: an [Interrupt(prompt)], or the state
    [s] (which it has updated in place). *)
Inductive StepOut : Type :=
| Interrupt (prompt : string)
| Ret.

(** [ensure_defaults(s)]: the argument [now_iso()] of the second setdefault
    is evaluated on every call. *)
Definition ensure_defaults (s : ExecState) : Clk ExecState :=
  t <-c now_iso ;;
  let m := es_meta s in
  let st := match sm_status m with Some x => Some x | None => Some "in_progress" end in
  let t0 := match sm_start_time m with Some x => Some x | None => Some t end in
  cret (set_meta (mkSMeta st (sm_last_node m) t0 (sm_end_time m)) s).

(** A guarded step: defaults, [last_node], then [Interrupt(prompt)] when
    [key] is not in the bag. *)
Definition guarded_step (name key prompt : string) (s : ExecState)
  : Clk (StepOut * ExecState) :=
  s <-c ensure_defaults s ;;
  let s := set_last_node name s in
  if negb (dict_mem key (es_bag s)) then cret (Interrupt prompt, s)
  else cret (Ret, s).

Definition validate_request := guarded_step "Validate Request" "validate"
  "Validate request? (yes/no)".
Definition gather_claim_info := guarded_step "Gather Claim Info"
  "claim_details" "Provide claim details".
Definition identify_accounts := guarded_step
  "Identify Accounts & Process Decision" "process_decision"
  "Decision? cancel / hold / suppress".
Definition hold_request := guarded_step "Hold Request" "hold_action"
  "Workflow on hold. Command: resume / abort".
Definition apply_suppression := guarded_step "Apply Temporary Suppression"
  "proceed_fulfill" "Proceed to fulfill? (yes/no)".

(** A terminal step ([cancel_request], [fulfill_case]). *)
Definition terminal_step (name status result : string) (s : ExecState)
  : Clk (StepOut * ExecState) :=
  s <-c ensure_defaults s ;;
  let s := set_last_node name s in
  let s := set_status status s in
  t <-c now_iso ;;
  let s := set_end_time t s in
  let s := set_result (VStr result) s in
  cret (Ret, s).

Definition cancel_request := terminal_step "Cancel CWD Request" "aborted"
  "Workflow aborted.".
Definition fulfill_case := terminal_step "Fulfill Case and Detect"
  "completed" "Fulfilled and detection complete.".

(** [g.add_node(...)] *)
Definition node_fn (n : Node) : ExecState -> Clk (StepOut * ExecState) :=
  match n with
  | ValidateRequest => validate_request
  | GatherClaimInfo => gather_claim_info
  | IdentifyAccounts => identify_accounts
  | CancelRequest => cancel_request
  | HoldRequest => hold_request
  | ApplySuppression => apply_suppression
  | FulfillCase => fulfill_case
  end.

(** The edges out of a node that did not return an [Interrupt] (on an
    [Interrupt] every conditional edge goes to [END]); [None] is [END]. *)
Definition route (n : Node) (s : ExecState) : option Node :=
  let b := es_bag s in
  match n with
  | ValidateRequest =>
      if get_is "validate" "yes" b then Some GatherClaimInfo
      else if get_is "validate" "no" b then Some CancelRequest
      else None
  | GatherClaimInfo =>
      match dict_get "claim_details" b with
      | Some v => if truthy v then Some IdentifyAccounts else None
      | None => None
      end
  | IdentifyAccounts =>
      if get_is "process_decision" "cancel" b then Some CancelRequest
      else if get_is "process_decision" "hold" b then Some HoldRequest
      else if get_is "process_decision" "suppress" b then Some ApplySuppression
      else None
  | HoldRequest =>
      if get_is "hold_action" "resume" b then Some ApplySuppression
      else if get_is "hold_action" "abort" b then Some CancelRequest
      else None
  | ApplySuppression =>
      if get_is "proceed_fulfill" "yes" b then Some FulfillCase
      else if get_is "proceed_fulfill" "no" b then Some CancelRequest
      else None
  | CancelRequest => None
  | FulfillCase => None
  end.

(** What [graph.invoke(state)] hands back: the [Interrupt] of the step that
    paused, or the state dict; [IRRecursionLimit] is LangGraph's
    [GraphRecursionError], raised when the step budget is used up. *)
Inductive InvokeResult : Type :=
| IRInterrupt (prompt : string)
| IRState
| IRRecursionLimit.

(** The traversal [graph.invoke] performs, as the repository relies on it
    (spec 4.1; the LangGraph runtime is library code): from a node, run its
    step on the state, which the step updates in place; an [Interrupt] ends
    the run and is the result; otherwise follow [route]. The state returned
    alongside is the state object as the steps left it. [fuel] is the number
    of steps that may still run: a step routed to once it is [0] raises. *)
Fixpoint run_from (fuel : nat) (n : Node) (s : ExecState)
  : Clk (InvokeResult * ExecState) :=
  match fuel with
  | O => cret (IRRecursionLimit, s)
  | S f =>
      r <-c node_fn n s ;;
      let (o, s') := r in
      match o with
      | Interrupt p => cret (IRInterrupt p, s')
      | Ret =>
          match route n s' with
          | None => cret (IRState, s')
          | Some n' => run_from f n' s'
          end
      end
  end.

(** LangGraph's default [recursion_limit]. *)
Definition recursion_limit : nat := 25.

(** [self.graph.invoke(state)]: entry point [Validate Request].  LangGraph
    counts its input as a step, so under [recursion_limit] = 25 at most 24
    steps run; the fuel 25 used here differs from that by one, which no path
    of the graph (6 steps at most) can notice: [graph_invoke] below is the
    exact count, and [invoke_limit_irrelevant] shows the two agree. *)
Definition invoke (s : ExecState) : Clk (InvokeResult * ExecState) :=
  run_from recursion_limit ValidateRequest s.

(* ================================================================== *)
(** ** Audit model: instance metadata and events *)

(** An entry [{ts, node, actor, status}] of [steps_history]. *)
Record StepEntry : Type := mkStepEntry {
  se_ts : string; se_node : string; se_actor : string; se_status : string }.

(** [InstanceMeta] (the dataclass; stored through [to_dict]). *)
Record InstanceMeta : Type := mkInstanceMeta {
  im_instance_id : string;
  im_customer_id : string;
  im_workflow_name : string;
  im_started_by : string;
  im_last_actor : option string;
  im_status : string;
  im_last_node : option string;
  im_start_time : option string;
  im_end_time : option string;
  im_steps_history : list StepEntry }.

Definition im_set_last_actor (a : option string) (m : InstanceMeta) :=
  mkInstanceMeta (im_instance_id m) (im_customer_id m) (im_workflow_name m)
    (im_started_by m) a (im_status m) (im_last_node m) (im_start_time m)
    (im_end_time m) (im_steps_history m).
Definition im_set_status (st : string) (m : InstanceMeta) :=
  mkInstanceMeta (im_instance_id m) (im_customer_id m) (im_workflow_name m)
    (im_started_by m) (im_last_actor m) st (im_last_node m) (im_start_time m)
    (im_end_time m) (im_steps_history m).
Definition im_set_last_node (n : option string) (m : InstanceMeta) :=
  mkInstanceMeta (im_instance_id m) (im_customer_id m) (im_workflow_name m)
    (im_started_by m) (im_last_actor m) (im_status m) n (im_start_time m)
    (im_end_time m) (im_steps_history m).
Definition im_set_start_time (t : option string) (m : InstanceMeta) :=
  mkInstanceMeta (im_instance_id m) (im_customer_id m) (im_workflow_name m)
    (im_started_by m) (im_last_actor m) (im_status m) (im_last_node m) t
    (im_end_time m) (im_steps_history m).
Definition im_set_end_time (t : option string) (m : InstanceMeta) :=
  mkInstanceMeta (im_instance_id m) (im_customer_id m) (im_workflow_name m)
    (im_started_by m) (im_last_actor m) (im_status m) (im_last_node m)
    (im_start_time m) t (im_steps_history m).
Definition im_set_history (h : list StepEntry) (m : InstanceMeta) :=
  mkInstanceMeta (im_instance_id m) (im_customer_id m) (im_workflow_name m)
    (im_started_by m) (im_last_actor m) (im_status m) (im_last_node m)
    (im_start_time m) (im_end_time m) h.

(** An event [{ts, instance_id, event, node, status, actor, data}]. *)
Record Event : Type := mkEvent {
  ev_ts : string;
  ev_instance_id : string;
  ev_event : string;
  ev_node : option string;
  ev_status : string;
  ev_actor : string;
  ev_data : Dict }.

(* ================================================================== *)
(** ** The store, the world and the engine monad *)

(** The four namespaces of the [InMemoryStore] the engine uses, each a
    map from key to the value last [put] there. *)
Record Store : Type := mkStore {
  ns_state : string -> option ExecState;          (* workflow_state *)
  ns_meta : string -> option InstanceMeta;        (* workflow_meta *)
  ns_events : string -> option (list Event);      (* workflow_events *)
  ns_index : string -> option (list string) }.    (* workflow_index *)

Definition upd {A} (f : string -> option A) (k : string) (v : A) :=
  fun k' => if String.eqb k k' then Some v else f k'.

Definition empty_store : Store :=
  mkStore (fun _ => None) (fun _ => None) (fun _ => None) (fun _ => None).

Record World : Type := mkWorld { w_store : Store; w_clock : Clock }.

(** The exceptions the engine raises. *)
Inductive Exc : Type :=
| NotFound (instance_id : string)   (* ValueError("No workflow found: ...") *)
| MissingMeta                       (* ValueError("Missing meta") *)
| RecursionError.                   (* GraphRecursionError from invoke *)

(** Engine code: state passing over the world, with exceptions that keep
    the writes made before the raise. *)
Definition M (A : Type) : Type := World -> (Exc + A) * World.

Definition ret {A} (a : A) : M A := fun w => (inr a, w).
Definition bind {A B} (m : M A) (f : A -> M B) : M B :=
  fun w => match m w with
           | (inl e, w') => (inl e, w')
           | (inr a, w') => f a w'
           end.
Definition raise {A} (e : Exc) : M A := fun w => (inl e, w).

Notation "x <- m ;; k" := (bind m (fun x => k))
  (at level 61, m at next level, right associativity).
Notation "m ;;; k" := (bind m (fun _ => k))
  (at level 61, right associativity).

Definition get_store : M Store := fun w => (inr (w_store w), w).
Definition put_store (st : Store) : M unit :=
  fun w => (inr tt, mkWorld st (w_clock w)).

(** Run clock-only code inside the engine. *)
Definition liftC {A} (m : Clk A) : M A :=
  fun w => let (a, c) := m (w_clock w) in (inr a, mkWorld (w_store w) c).

Definition now : M string := liftC now_iso.

(* ================================================================== *)
(** ** [Engine] *)

Definition store_put_state (iid : string) (s : ExecState) : M unit :=
  st <- get_store ;;
  put_store (mkStore (upd (ns_state st) iid s) (ns_meta st) (ns_events st)
               (ns_index st)).

(** [_put_meta] *)
Definition put_meta (m : InstanceMeta) : M unit :=
  st <- get_store ;;
  put_store (mkStore (ns_state st) (upd (ns_meta st) (im_instance_id m) m)
               (ns_events st) (ns_index st)).

(** [_get_meta] *)
Definition get_meta (iid : string) : M (option InstanceMeta) :=
  st <- get_store ;; ret (ns_meta st iid).

(** [_add_to_index] *)
Definition add_to_index (iid : string) : M unit :=
  st <- get_store ;;
  let idx := match ns_index st "instances" with Some l => l | None => [] end in
  if existsb (String.eqb iid) idx then ret tt
  else put_store (mkStore (ns_state st) (ns_meta st) (ns_events st)
                    (upd (ns_index st) "instances" (idx ++ [iid])%list)).

(** [_append_event] *)
Definition append_event (iid event : string) (node : option string)
  (status actor : string) (data : Dict) : M unit :=
  st <- get_store ;;
  let evs := match ns_events st iid with Some l => l | None => [] end in
  ts <- now ;;
  st <- get_store ;;
  put_store (mkStore (ns_state st) (ns_meta st)
               (upd (ns_events st) iid
                  (evs ++ [mkEvent ts iid event node status actor data])%list)
               (ns_index st)).

(** [m.steps_history[-1]["node"] if m.steps_history else None] *)
Definition last_entry_node (h : list StepEntry) : option string :=
  match rev h with e :: _ => Some (se_node e) | [] => None end.

Definition opt_str_eqb (a b : option string) : bool :=
  match a, b with
  | Some x, Some y => String.eqb x y
  | None, None => true
  | _, _ => false
  end.

(** The field copies of [_update_meta_from_state], up to [m.status = status]. *)
Definition assign_from_state (actor : string) (s : ExecState) (m : InstanceMeta)
  : InstanceMeta :=
  let sm := es_meta s in
  let last_node := sm_last_node sm in
  let status := match sm_status sm with Some x => x | None => im_status m end in
  let m := im_set_last_actor (Some actor) m in
  let m := if truthy_opt last_node then im_set_last_node last_node m else m in
  let m := if truthy_opt (sm_start_time sm) && negb (truthy_opt (im_start_time m))
           then im_set_start_time (sm_start_time sm) m else m in
  let m := if truthy_opt (sm_end_time sm)
           then im_set_end_time (sm_end_time sm) m else m in
  im_set_status status m.

(** [last_node and last_node != prev_node], with
    [prev_node = m.steps_history[-1]["node"] if m.steps_history else None]. *)
Definition history_advances (s : ExecState) (m : InstanceMeta) : bool :=
  let last_node := sm_last_node (es_meta s) in
  truthy_opt last_node &&
  negb (opt_str_eqb last_node (last_entry_node (im_steps_history m))).

(** [m.steps_history.append({"ts": ts, "node": last_node, "actor": actor,
    "status": m.status})] *)
Definition add_step (ts actor : string) (s : ExecState) (m : InstanceMeta)
  : InstanceMeta :=
  let ln := match sm_last_node (es_meta s) with Some x => x | None => "" end in
  im_set_history
    (im_steps_history m ++ [mkStepEntry ts ln actor (im_status m)])%list m.

(** [_update_meta_from_state] *)
Definition update_meta_from_state (iid actor : string) (s : ExecState)
  : M InstanceMeta :=
  mo <- get_meta iid ;;
  match mo with
  | None => raise MissingMeta
  | Some m =>
      let m := assign_from_state actor s m in
      m <- (if history_advances s m
            then ts <- now ;; ret (add_step ts actor s m)
            else ret m) ;;
      put_meta m ;;; ret m
  end.

(** The summary dicts [_run] returns, by their [status] key. *)
Inductive Summary : Type :=
| SumPaused (prompt : string) (instance_id : string)
| SumCompleted (node : string) (result : Value) (instance_id : string)
| SumAborted (node : string) (result : Value) (instance_id : string)
| SumInProgress (node : string) (instance_id : string).

(** [if not s["meta"].get("last_node"): s["meta"]["last_node"] = "Validate Request"] *)
Definition default_last_node (s : ExecState) : ExecState :=
  if truthy_opt (sm_last_node (es_meta s)) then s
  else set_last_node "Validate Request" s.

(** [result.get("bag", {}).get("result")] *)
Definition bag_result (s : ExecState) : Value :=
  match dict_get "result" (es_bag s) with Some v => v | None => VNone end.

Definition is_terminal_status (st : string) : bool :=
  String.eqb st "completed" || String.eqb st "aborted".

(** [update_and_return] (inner function of [_run]) *)
Definition update_and_return (iid actor : string) (payload : Summary)
  (state_for_meta : ExecState) : M Summary :=
  meta <- update_meta_from_state iid actor state_for_meta ;;
  put_meta meta ;;;
  ret payload.

(** [Engine._run].  The state is put in the store before [last_node] is
    defaulted; the store holds the same dict object, so the put is taken
    after the defaulting. *)
Definition run (iid : string) (state : ExecState) (actor : string)
  : M Summary :=
  r <- liftC (invoke state) ;;
  let (res, state) := r in
  match res with
  | IRRecursionLimit => raise RecursionError
  | IRInterrupt prompt =>
      let state := default_last_node state in
      store_put_state iid state ;;;
      meta <- update_meta_from_state iid actor state ;;
      meta <- (if negb (is_terminal_status (im_status meta))
               then let meta := im_set_status "paused" meta in
                    put_meta meta ;;; ret meta
               else ret meta) ;;
      append_event iid "paused" (sm_last_node (es_meta state)) (im_status meta)
        actor [("prompt", VStr prompt)] ;;;
      update_and_return iid actor (SumPaused prompt iid) state
  | IRState =>
      let result := default_last_node state in
      store_put_state iid result ;;;
      meta <- update_meta_from_state iid actor result ;;
      let node := match sm_last_node (es_meta result) with
                  | Some n => n | None => "Validate Request" end in
      let status := match sm_status (es_meta result) with
                    | Some x => x | None => im_status meta end in
      if String.eqb status "completed" then
        let meta := im_set_status "completed" meta in
        put_meta meta ;;;
        append_event iid "completed" (Some node) (im_status meta) actor
          [("result", bag_result result)] ;;;
        update_and_return iid actor
          (SumCompleted node (bag_result result) iid) result
      else if String.eqb status "aborted" then
        let meta := im_set_status "aborted" meta in
        put_meta meta ;;;
        append_event iid "aborted" (Some node) (im_status meta) actor
          [("result", bag_result result)] ;;;
        update_and_return iid actor
          (SumAborted node (bag_result result) iid) result
      else
        let meta := im_set_status "in_progress" meta in
        put_meta meta ;;;
        append_event iid "progressed" (Some node) (im_status meta) actor [] ;;;
        update_and_return iid actor (SumInProgress node iid) result
  end.

(** [Engine.start].  [instance_id] is the fresh [str(uuid.uuid4())];
    [workflow_name] is [self.workflow_name]. *)
Definition start (workflow_name instance_id customer_id started_by : string)
  : M (string * Summary) :=
  t <- now ;;
  let state := mkExecState instance_id customer_id workflow_name []
                 (mkSMeta (Some "in_progress") None (Some t) None) in
  let meta := mkInstanceMeta instance_id customer_id workflow_name started_by
                (Some started_by) "in_progress" None (Some t) None [] in
  store_put_state instance_id state ;;;
  put_meta meta ;;;
  add_to_index instance_id ;;;
  append_event instance_id "created" None (im_status meta) started_by
    [("customer_id", VStr customer_id)] ;;;
  r <- run instance_id state started_by ;;
  ret (instance_id, r).

(** [Engine.resume] *)
Definition resume (instance_id actor : string) (updates : Dict) : M Summary :=
  st <- get_store ;;
  match ns_state st instance_id with
  | None => raise (NotFound instance_id)
  | Some state =>
      let state := set_bag (dict_update (es_bag state) updates) state in
      store_put_state instance_id state ;;;
      append_event instance_id "resume_command"
        (sm_last_node (es_meta state)) "in_progress" actor
        [("updates", VDict updates)] ;;;
      run instance_id state actor
  end.

(** [Engine.get_state], [Engine.get_meta], [Engine.history] *)
Definition get_state_q (st : Store) (iid : string) : option ExecState :=
  ns_state st iid.
Definition get_meta_q (st : Store) (iid : string) : option InstanceMeta :=
  ns_meta st iid.
Definition history (st : Store) (iid : string) : list Event :=
  match ns_events st iid with Some l => l | None => [] end.

(** The sort key of [list_instances]:
    [x.steps_history[-1]["ts"] if x.steps_history else ""]. *)
Definition history_key (m : InstanceMeta) : string :=
  match rev (im_steps_history m) with e :: _ => se_ts e | [] => "" end.

(** Insert into a list sorted by descending key, after every element whose
    key is not smaller: one step of the stable [sort(reverse=True)]. *)
Fixpoint insert_desc (x : InstanceMeta) (l : list InstanceMeta) :=
  match l with
  | [] => [x]
  | y :: l' =>
      if String.ltb (history_key y) (history_key x) then x :: y :: l'
      else y :: insert_desc x l'
  end.

(** [out.sort(key=history_key, reverse=True)] (Python's sort is stable, and
    [reverse=True] keeps equal keys in their original order). *)
Definition sort_desc (l : list InstanceMeta) : list InstanceMeta :=
  fold_left (fun acc x => insert_desc x acc) l [].

(** [if f and field != f: continue] *)
Definition filter_skips (f : option string) (field : string) : bool :=
  truthy_opt f && negb (opt_str_eqb (Some field) f).

(** The loop of [list_instances] over the ids. *)
Fixpoint collect (st : Store) (customer_id status started_by workflow_name
  : option string) (ids : list string) : list InstanceMeta :=
  match ids with
  | [] => []
  | iid :: ids' =>
      let rest := collect st customer_id status started_by workflow_name ids' in
      match ns_meta st iid with
      | None => rest
      | Some m =>
          if filter_skips workflow_name (im_workflow_name m) then rest
          else if filter_skips customer_id (im_customer_id m) then rest
          else if filter_skips status (im_status m) then rest
          else if filter_skips started_by (im_started_by m) then rest
          else m :: rest
      end
  end.

(** [Engine.list_instances] *)
Definition list_instances (st : Store) (customer_id status started_by
  workflow_name : option string) : list InstanceMeta :=
  let ids := match ns_index st "instances" with Some l => l | None => [] end in
  sort_desc (collect st customer_id status started_by workflow_name ids).

(* ================================================================== *)
(** ** Proof vocabulary *)

(** The bag write a step makes ([s["bag"]["result"] = ...]). *)
Definition apply_result (o : option Value) (b : Dict) : Dict :=
  match o with Some v => dict_set "result" v b | None => b end.

Definition step_bag_effect (n : Node) : option Value :=
  match n with
  | CancelRequest => Some (VStr "Workflow aborted.")
  | FulfillCase => Some (VStr "Fulfilled and detection complete.")
  | _ => None
  end.

(** The bag key a guarded step requires, and its prompt. *)
Definition step_key (n : Node) : option string :=
  match n with
  | ValidateRequest => Some "validate"
  | GatherClaimInfo => Some "claim_details"
  | IdentifyAccounts => Some "process_decision"
  | HoldRequest => Some "hold_action"
  | ApplySuppression => Some "proceed_fulfill"
  | CancelRequest | FulfillCase => None
  end.

Definition step_prompt (n : Node) : string :=
  match n with
  | ValidateRequest => "Validate request? (yes/no)"
  | GatherClaimInfo => "Provide claim details"
  | IdentifyAccounts => "Decision? cancel / hold / suppress"
  | HoldRequest => "Workflow on hold. Command: resume / abort"
  | ApplySuppression => "Proceed to fulfill? (yes/no)"
  | CancelRequest | FulfillCase => ""
  end.

(** Whether a step returns an [Interrupt] on a bag. *)
Definition step_out (n : Node) (b : Dict) : StepOut :=
  match step_key n with
  | Some k => if dict_mem k b then Ret else Interrupt (step_prompt n)
  | None => Ret
  end.

(** The status a step leaves in [meta]. *)
Definition step_status (n : Node) (st : option string) : option string :=
  match n with
  | CancelRequest => Some "aborted"
  | FulfillCase => Some "completed"
  | _ => match st with Some x => Some x | None => Some "in_progress" end
  end.

(** Distance of a node from [END] along the longest path. *)
Definition rank (n : Node) : nat :=
  match n with
  | ValidateRequest => 6
  | GatherClaimInfo => 5
  | IdentifyAccounts => 4
  | HoldRequest => 3
  | ApplySuppression => 2
  | CancelRequest | FulfillCase => 1
  end.

(** Two bags that agree on every key other than ["result"]. *)
Definition bag_agree (b1 b2 : Dict) : Prop :=
  forall k, k <> "result" -> dict_get k b1 = dict_get k b2.

Ltac destruct_ifs :=
  repeat match goal with
         | |- context [if ?b then _ else _] =>
             let E := fresh "E" in destruct b eqn:E
         | |- context [match ?x with Some _ => _ | None => _ end] =>
             let E := fresh "E" in destruct x eqn:E
         end.

(* ------------------------------------------------------------------ *)
(** *** Dicts *)

Lemma dict_get_set_same k v b : dict_get k (dict_set k v b) = Some v.
Proof.
  induction b as [|[k' v'] b IH]; simpl.
  - rewrite String.eqb_refl; reflexivity.
  - destruct (String.eqb k k') eqn:E; simpl.
    + apply String.eqb_eq in E; subst. rewrite String.eqb_refl; reflexivity.
    + rewrite E; exact IH.
Qed.

Lemma dict_get_set_other k k' v b :
  k <> k' -> dict_get k' (dict_set k v b) = dict_get k' b.
Proof.
  intros Hne. induction b as [|[k0 v0] b IH]; simpl.
  - destruct (String.eqb k' k) eqn:E; [apply String.eqb_eq in E; congruence | reflexivity].
  - destruct (String.eqb k k0) eqn:E; simpl.
    + apply String.eqb_eq in E; subst.
      destruct (String.eqb k' k0) eqn:E'; [apply String.eqb_eq in E'; congruence|reflexivity].
    + destruct (String.eqb k' k0); [reflexivity | exact IH].
Qed.

Lemma dict_set_set k u v b : dict_set k v (dict_set k u b) = dict_set k v b.
Proof.
  induction b as [|[k0 v0] b IH]; simpl.
  - rewrite String.eqb_refl; reflexivity.
  - destruct (String.eqb k k0) eqn:E; simpl; rewrite E; [reflexivity | now rewrite IH].
Qed.

Lemma apply_result_agree o b : bag_agree b (apply_result o b).
Proof.
  intros k Hk; destruct o; simpl; [|reflexivity].
  symmetry; apply dict_get_set_other; congruence.
Qed.

Lemma apply_result_idem o b : apply_result o (apply_result o b) = apply_result o b.
Proof. destruct o; simpl; [apply dict_set_set | reflexivity]. Qed.

Lemma apply_result_comp o o' b :
  apply_result o' (apply_result o b) =
  apply_result (match o' with Some v => Some v | None => o end) b.
Proof. destruct o', o; simpl; try reflexivity. apply dict_set_set. Qed.

Lemma bag_agree_refl b : bag_agree b b.
Proof. intros k _; reflexivity. Qed.

Lemma bag_agree_apply o b1 b2 :
  bag_agree b1 b2 -> bag_agree (apply_result o b1) (apply_result o b2).
Proof.
  intros H k Hk; destruct o; simpl; [|now apply H].
  rewrite !dict_get_set_other by congruence; now apply H.
Qed.

(* ------------------------------------------------------------------ *)
(** *** Steps and routes *)

Lemma node_fn_spec n s c o s' c' :
  node_fn n s c = (o, s', c') ->
  es_bag s' = apply_result (step_bag_effect n) (es_bag s) /\
  sm_last_node (es_meta s') = Some (node_name n) /\
  o = step_out n (es_bag s) /\
  sm_status (es_meta s') = step_status n (sm_status (es_meta s)).
Proof.
  destruct n; cbn; intros H; inversion H; subst; clear H;
    try (destruct (dict_mem _ _); inversion H1; subst);
    cbn; repeat split; try reflexivity;
    destruct (sm_status (es_meta s)); reflexivity.
Qed.

Lemma route_rank n s n' : route n s = Some n' -> rank n' < rank n.
Proof.
  destruct n; cbn; destruct_ifs; intros H; inversion H; subst; cbn; lia.
Qed.

Lemma route_agree n s t :
  bag_agree (es_bag s) (es_bag t) -> route n s = route n t.
Proof.
  intros H; destruct n; unfold route, get_is; cbn;
    rewrite ?(H "validate"), ?(H "claim_details"), ?(H "process_decision"),
      ?(H "hold_action"), ?(H "proceed_fulfill") by discriminate;
    reflexivity.
Qed.

Lemma step_out_agree n b1 b2 : bag_agree b1 b2 -> step_out n b1 = step_out n b2.
Proof.
  intros H; destruct n; unfold step_out, dict_mem; cbn;
    rewrite ?(H "validate"), ?(H "claim_details"), ?(H "process_decision"),
      ?(H "hold_action"), ?(H "proceed_fulfill") by discriminate;
    reflexivity.
Qed.

(* ------------------------------------------------------------------ *)
(** *** The traversal *)

Definition status_terminal (o : option string) : bool :=
  match o with Some x => is_terminal_status x | None => false end.

Lemma run_from_S f n s c :
  run_from (S f) n s c =
  let '(o, s', c') := node_fn n s c in
  match o with
  | Interrupt p => (IRInterrupt p, s', c')
  | Ret => match route n s' with
           | None => (IRState, s', c')
           | Some n' => run_from f n' s' c'
           end
  end.
Proof.
  cbn [run_from]; unfold cbind.
  destruct (node_fn n s c) as [[o s'] c'];
    destruct o; [reflexivity | destruct (route n s'); reflexivity].
Qed.

Lemma run_from_no_limit f n s c ir s1 c1 :
  rank n < f -> run_from f n s c = (ir, s1, c1) -> ir <> IRRecursionLimit.
Proof.
  revert n s c; induction f as [|f IH]; intros n s c Hr H; [lia|].
  rewrite run_from_S in H.
  destruct (node_fn n s c) as [[o s'] c'] eqn:E.
  destruct o as [p|]; [inversion H; discriminate|].
  destruct (route n s') as [n'|] eqn:R; [|inversion H; discriminate].
  apply route_rank in R. eapply IH; [|exact H]; lia.
Qed.

Lemma invoke_no_limit s c ir s1 c1 :
  invoke s c = (ir, s1, c1) -> ir <> IRRecursionLimit.
Proof.
  unfold invoke, recursion_limit; intros H.
  eapply run_from_no_limit; [|exact H]. cbn; lia.
Qed.

Lemma run_from_status f n s c ir s1 c1 :
  0 < f -> run_from f n s c = (ir, s1, c1) ->
  (exists x, sm_status (es_meta s1) = Some x) /\
  (status_terminal (sm_status (es_meta s)) = true ->
   status_terminal (sm_status (es_meta s1)) = true).
Proof.
  revert n s c; induction f as [|f IH]; intros n s c Hf H; [lia|].
  rewrite run_from_S in H.
  destruct (node_fn n s c) as [[o s'] c'] eqn:E.
  apply node_fn_spec in E as (_ & _ & _ & Est).
  assert (Hs' : (exists x, sm_status (es_meta s') = Some x) /\
                (status_terminal (sm_status (es_meta s)) = true ->
                 status_terminal (sm_status (es_meta s')) = true)).
  { rewrite Est; destruct n; cbn; destruct (sm_status (es_meta s)); eauto. }
  destruct o as [p|]; [inversion H; subst; exact Hs'|].
  destruct (route n s') as [n'|] eqn:R; [|inversion H; subst; exact Hs'].
  destruct f as [|f].
  - cbn in H; inversion H; subst; exact Hs'.
  - destruct (IH n' s' c' ltac:(lia) H) as [H1 H2].
    split; [exact H1 | intros T; apply H2, Hs', T].
Qed.

Lemma run_from_last_node f n s c ir s1 c1 :
  0 < f -> run_from f n s c = (ir, s1, c1) ->
  exists m, sm_last_node (es_meta s1) = Some (node_name m).
Proof.
  revert n s c; induction f as [|f IH]; intros n s c Hf H; [lia|].
  rewrite run_from_S in H.
  destruct (node_fn n s c) as [[o s'] c'] eqn:E.
  apply node_fn_spec in E as (_ & El & _ & _).
  destruct o as [p|]; [inversion H; subst; eauto|].
  destruct (route n s') as [n'|] eqn:R; [|inversion H; subst; eauto].
  destruct f as [|f]; [cbn in H; inversion H; subst; eauto|].
  eapply IH; [|exact H]; lia.
Qed.

(** Two runs from the same node on bags that agree off ["result"] take the
    same path: same outcome, same final [last_node], and the same bag
    write. *)
Lemma run_from_agree f n s t c d r1 s1 c1 r2 t1 d1 :
  bag_agree (es_bag s) (es_bag t) ->
  run_from f n s c = (r1, s1, c1) -> run_from f n t d = (r2, t1, d1) ->
  r1 = r2 /\
  (0 < f -> sm_last_node (es_meta s1) = sm_last_node (es_meta t1)) /\
  exists o, es_bag s1 = apply_result o (es_bag s) /\
            es_bag t1 = apply_result o (es_bag t).
Proof.
  revert n s t c d; induction f as [|f IH]; intros n s t c d Hag H1 H2.
  - cbn in H1, H2; inversion H1; inversion H2; subst.
    split; [reflexivity|]; split; [lia|]. exists None; split; reflexivity.
  - rewrite run_from_S in H1, H2.
    destruct (node_fn n s c) as [[o s'] c'] eqn:E1.
    destruct (node_fn n t d) as [[o' t'] d'] eqn:E2.
    apply node_fn_spec in E1 as (Eb1 & El1 & Eo1 & _).
    apply node_fn_spec in E2 as (Eb2 & El2 & Eo2 & _).
    assert (Hoo : o = o') by (rewrite Eo1, Eo2; apply step_out_agree, Hag).
    clear Eo1 Eo2.
    assert (Hag' : bag_agree (es_bag s') (es_bag t'))
      by (rewrite Eb1, Eb2; apply bag_agree_apply, Hag).
    subst o'.
    destruct o as [p|].
    + inversion H1; inversion H2; subst.
      split; [reflexivity|]; split; [intros; congruence|].
      exists (step_bag_effect n); split; assumption.
    + rewrite <- (route_agree n s' t' Hag') in H2.
      destruct (route n s') as [n'|] eqn:R.
      * destruct (IH n' s' t' c' d' Hag' H1 H2) as (Hr & Hl & o2 & B1 & B2).
        split; [exact Hr|]. split.
        -- intros _. destruct f as [|f].
           ++ cbn in H1, H2; inversion H1; inversion H2; subst; congruence.
           ++ apply Hl; lia.
        -- exists (match o2 with Some v => Some v | None => step_bag_effect n end).
           rewrite B1, B2, Eb1, Eb2, !apply_result_comp; split; reflexivity.
      * inversion H1; inversion H2; subst.
        split; [reflexivity|]; split; [intros; congruence|].
        exists (step_bag_effect n); split; assumption.
Qed.

(** Re-running the graph on the state a run left behind takes the same path
    again: same outcome, same bag, same [last_node]. *)
Lemma invoke_idem s0 c0 r1 s1 c1 c r2 s2 c2 :
  invoke s0 c0 = (r1, s1, c1) -> invoke s1 c = (r2, s2, c2) ->
  r1 = r2 /\ es_bag s2 = es_bag s1 /\
  sm_last_node (es_meta s2) = sm_last_node (es_meta s1).
Proof.
  unfold invoke; intros H1 H2.
  destruct (run_from_agree _ _ _ _ _ _ _ _ _ _ _ _ (bag_agree_refl (es_bag s0))
              H1 H1) as (_ & _ & o & B1 & _).
  assert (Hag : bag_agree (es_bag s0) (es_bag s1))
    by (rewrite B1; apply apply_result_agree).
  destruct (run_from_agree _ _ _ _ _ _ _ _ _ _ _ _ Hag H1 H2)
    as (Hr & Hl & o' & B1' & B2').
  split; [exact Hr|]. split.
  - rewrite B2', B1'; apply apply_result_idem.
  - symmetry; apply Hl; unfold recursion_limit; lia.
Qed.

(* ------------------------------------------------------------------ *)
(** *** The store primitives *)

Definition st_set_state (st : Store) (k : string) (s : ExecState) : Store :=
  mkStore (upd (ns_state st) k s) (ns_meta st) (ns_events st) (ns_index st).
Definition st_set_meta (st : Store) (k : string) (m : InstanceMeta) : Store :=
  mkStore (ns_state st) (upd (ns_meta st) k m) (ns_events st) (ns_index st).
Definition st_set_events (st : Store) (k : string) (l : list Event) : Store :=
  mkStore (ns_state st) (ns_meta st) (upd (ns_events st) k l) (ns_index st).

Definition next_clock (c : Clock) : Clock := mkClock (S (tick c)) (wall c).

(** The metadata [_update_meta_from_state] writes, and the clock after. *)
Definition meta_step (actor : string) (s : ExecState) (m : InstanceMeta)
  (c : Clock) : InstanceMeta * Clock :=
  let m1 := assign_from_state actor s m in
  if history_advances s m1
  then (add_step (wall c (tick c)) actor s m1, next_clock c)
  else (m1, c).

Lemma upd_same {A} (f : string -> option A) k v : upd f k v k = Some v.
Proof. unfold upd; now rewrite String.eqb_refl. Qed.

Lemma upd_other {A} (f : string -> option A) k k' v :
  k <> k' -> upd f k v k' = f k'.
Proof.
  intros H; unfold upd; destruct (String.eqb k k') eqn:E; [|reflexivity].
  apply String.eqb_eq in E; congruence.
Qed.

Lemma bind_assoc {A B C} (m : M A) (f : A -> M B) (g : B -> M C) w :
  bind (bind m f) g w = bind m (fun x => bind (f x) g) w.
Proof. unfold bind; destruct (m w) as [[e|a] w']; reflexivity. Qed.

Lemma bind_ret {A B} (a : A) (f : A -> M B) w : bind (ret a) f w = f a w.
Proof. reflexivity. Qed.

Lemma bind_put_state {B} iid s (f : unit -> M B) st c :
  bind (store_put_state iid s) f (mkWorld st c) =
  f tt (mkWorld (st_set_state st iid s) c).
Proof. reflexivity. Qed.

Lemma bind_put_meta {B} m (f : unit -> M B) st c :
  bind (put_meta m) f (mkWorld st c) =
  f tt (mkWorld (st_set_meta st (im_instance_id m) m) c).
Proof. reflexivity. Qed.

Lemma bind_append_event {B} iid ev node status actor data (f : unit -> M B) st c :
  bind (append_event iid ev node status actor data) f (mkWorld st c) =
  f tt (mkWorld (st_set_events st iid
                   (history st iid ++
                    [mkEvent (wall c (tick c)) iid ev node status actor data])%list)
          (next_clock c)).
Proof. reflexivity. Qed.

Lemma bind_liftC {A B} (m : Clk A) (f : A -> M B) st c :
  bind (liftC m) f (mkWorld st c) =
  f (fst (m c)) (mkWorld st (snd (m c))).
Proof. unfold bind, liftC; cbn; destruct (m c); reflexivity. Qed.

(* ------------------------------------------------------------------ *)
(** *** [_update_meta_from_state] *)

Lemma assign_id a s m : im_instance_id (assign_from_state a s m) = im_instance_id m.
Proof. unfold assign_from_state; destruct_ifs; reflexivity. Qed.

Lemma assign_hist a s m :
  im_steps_history (assign_from_state a s m) = im_steps_history m.
Proof. unfold assign_from_state; destruct_ifs; reflexivity. Qed.

Lemma assign_status a s m :
  im_status (assign_from_state a s m) =
  match sm_status (es_meta s) with Some x => x | None => im_status m end.
Proof. unfold assign_from_state; destruct_ifs; reflexivity. Qed.

Lemma meta_step_id a s m c :
  im_instance_id (fst (meta_step a s m c)) = im_instance_id m.
Proof. unfold meta_step; destruct (history_advances _ _); apply assign_id. Qed.

Lemma meta_step_status a s m c :
  im_status (fst (meta_step a s m c)) =
  match sm_status (es_meta s) with Some x => x | None => im_status m end.
Proof. unfold meta_step; destruct (history_advances _ _); apply assign_status. Qed.

Lemma bind_update_meta {B} iid a s (f : InstanceMeta -> M B) st c m :
  ns_meta st iid = Some m -> im_instance_id m = iid ->
  bind (update_meta_from_state iid a s) f (mkWorld st c) =
  f (fst (meta_step a s m c))
    (mkWorld (st_set_meta st iid (fst (meta_step a s m c)))
       (snd (meta_step a s m c))).
Proof.
  intros Hm Hid.
  unfold update_meta_from_state, get_meta, bind at 1; cbn.
  unfold bind at 1; cbn. rewrite Hm.
  pose proof (meta_step_id a s m c) as Hs.
  unfold meta_step in *.
  destruct (history_advances s (assign_from_state a s m)); cbn in *;
    rewrite Hs, Hid; reflexivity.
Qed.

(** No two consecutive equal elements. *)
Fixpoint no_consec_dup (l : list string) : Prop :=
  match l with
  | x :: ((y :: _) as t) => x <> y /\ no_consec_dup t
  | _ => True
  end.

Definition history_nodes (m : InstanceMeta) : list string :=
  map se_node (im_steps_history m).

(** [m'] extends the step history of [m] and keeps it free of consecutive
    duplicates. *)
Definition meta_grows (m m' : InstanceMeta) : Prop :=
  (exists ext, im_steps_history m' = (im_steps_history m ++ ext)%list) /\
  (no_consec_dup (history_nodes m) -> no_consec_dup (history_nodes m')).

Lemma meta_grows_refl m : meta_grows m m.
Proof. split; [exists []; now rewrite app_nil_r | auto]. Qed.

Lemma meta_grows_trans m1 m2 m3 :
  meta_grows m1 m2 -> meta_grows m2 m3 -> meta_grows m1 m3.
Proof.
  intros [[e1 H1] N1] [[e2 H2] N2]; split; [|auto].
  exists (e1 ++ e2)%list; rewrite H2, H1, app_assoc; reflexivity.
Qed.

Lemma meta_grows_hist_eq m m' :
  im_steps_history m' = im_steps_history m -> meta_grows m m'.
Proof.
  intros H; split; [exists []; rewrite app_nil_r; exact H|].
  unfold history_nodes; rewrite H; auto.
Qed.

Lemma no_consec_dup_snoc l x :
  no_consec_dup l -> (forall y, hd_error (rev l) = Some y -> y <> x) ->
  no_consec_dup (l ++ [x])%list.
Proof.
  induction l as [|a l IH]; intros N H; [exact I|].
  destruct l as [|b l].
  - cbn; split; [|exact I]. apply H; reflexivity.
  - destruct N as [Nab N]. cbn - [rev] in *. split; [exact Nab|].
    apply IH; [exact N|]. intros y Hy; apply H.
    change (rev (a :: b :: l)) with (rev (b :: l) ++ [a])%list.
    destruct (rev (b :: l)) eqn:E; [|exact Hy].
    apply (f_equal (@rev _)) in E; rewrite rev_involutive in E; discriminate.
Qed.

Lemma meta_step_grows a s m c : meta_grows m (fst (meta_step a s m c)).
Proof.
  unfold meta_step.
  destruct (history_advances s (assign_from_state a s m)) eqn:Hadv;
    [|apply meta_grows_hist_eq, assign_hist].
  cbn [fst]; unfold add_step; cbn [im_set_history im_steps_history].
  rewrite assign_hist. split.
  - eexists; reflexivity.
  - unfold history_nodes; cbn; rewrite map_app; cbn. intros N.
    apply no_consec_dup_snoc; [exact N|].
    unfold history_advances in Hadv; rewrite assign_hist in Hadv.
    unfold last_entry_node in Hadv.
    intros y Hy. rewrite <- map_rev in Hy.
    destruct (rev (im_steps_history m)) as [|e r]; [discriminate|].
    cbn in Hy; inversion Hy; subst y.
    destruct (sm_last_node (es_meta s)) as [ln|]; [|discriminate].
    apply andb_prop in Hadv as [_ Hne]. cbn in Hne.
    intros Heq; rewrite Heq, String.eqb_refl in Hne; discriminate.
Qed.

(* ------------------------------------------------------------------ *)
(** *** [_run] *)

(** The summary [_run] returns for a traversal result, read off the
    final state. *)
Definition run_summary (iid : string) (ir : InvokeResult) (s : ExecState)
  : Summary :=
  let node := match sm_last_node (es_meta s) with
              | Some n => n | None => "Validate Request" end in
  match ir with
  | IRInterrupt p => SumPaused p iid
  | _ =>
      match sm_status (es_meta s) with
      | Some x =>
          if String.eqb x "completed" then SumCompleted node (bag_result s) iid
          else if String.eqb x "aborted" then SumAborted node (bag_result s) iid
          else SumInProgress node iid
      | None => SumInProgress node iid
      end
  end.

(** The kind of the one event [_run] appends. *)
Definition run_event (ir : InvokeResult) (s : ExecState) : string :=
  match ir with
  | IRInterrupt _ => "paused"
  | _ =>
      match sm_status (es_meta s) with
      | Some x =>
          if String.eqb x "completed" then "completed"
          else if String.eqb x "aborted" then "aborted"
          else "progressed"
      | None => "progressed"
      end
  end.

Lemma default_status s :
  sm_status (es_meta (default_last_node s)) = sm_status (es_meta s).
Proof. unfold default_last_node; destruct (truthy_opt _); reflexivity. Qed.

Lemma invoke_status s c ir s1 c1 :
  invoke s c = (ir, s1, c1) -> exists x, sm_status (es_meta s1) = Some x.
Proof.
  intros H; eapply run_from_status; [|exact H]; unfold recursion_limit; lia.
Qed.
Ltac close_run Hid1 Hid2 Hst2 Hx Hg1 Hg2 :=
  cbn [im_instance_id im_set_status] in Hid2; rewrite ?Hid1 in Hid2;
  rewrite Hx in Hst2;
  cbn [w_store st_set_meta st_set_events st_set_state ns_state ns_meta
       ns_events ns_index im_instance_id im_set_status history];
  rewrite ?Hid1, ?Hid2;
  split; [reflexivity|]; split; [reflexivity|]; split; [reflexivity|];
  split; [reflexivity|];
  split; [apply upd_same|];
  split; [intros k Hk; rewrite !upd_other by congruence; reflexivity|];
  split; [first [reflexivity | assumption]|];
  split; [rewrite ?Hx, Hst2; reflexivity|];
  eapply meta_grows_trans; [exact Hg1|];
  eapply meta_grows_trans; [apply meta_grows_hist_eq; reflexivity | exact Hg2].

Ltac finish_run a s1' m1' c2 Hid1 Hx Hg1 :=
  unfold update_and_return;
  rewrite (bind_update_meta _ _ _ _ _ _ m1');
  [| cbn; first [ apply upd_same
                | match goal with H : im_instance_id _ = _ |- _ =>
                    rewrite H; apply upd_same end ]
   | cbn; assumption ];
  let Hid2 := fresh "Hid2" in let Hst2 := fresh "Hst2" in
  let Hg2 := fresh "Hg2" in
  pose proof (meta_step_id a s1' m1' (next_clock c2)) as Hid2;
  pose proof (meta_step_status a s1' m1' (next_clock c2)) as Hst2;
  pose proof (meta_step_grows a s1' m1' (next_clock c2)) as Hg2;
  let m3 := fresh "m3" in let c3 := fresh "c3" in
  destruct (meta_step a s1' m1' (next_clock c2)) as [m3 c3];
  cbn [fst snd] in *; rewrite bind_put_meta;
  eexists; exists m3; eexists; split; [reflexivity|];
  close_run Hid1 Hid2 Hst2 Hx Hg1 Hg2.

Lemma run_spec iid s a w m0 ir s1 c1 :
  ns_meta (w_store w) iid = Some m0 -> im_instance_id m0 = iid ->
  invoke s (w_clock w) = (ir, s1, c1) ->
  exists w' m' e,
    run iid s a w = (inr (run_summary iid ir (default_last_node s1)), w') /\
    ns_state (w_store w') = upd (ns_state (w_store w)) iid (default_last_node s1) /\
    ns_index (w_store w') = ns_index (w_store w) /\
    ns_events (w_store w') =
      upd (ns_events (w_store w)) iid (history (w_store w) iid ++ [e])%list /\
    ev_event e = run_event ir (default_last_node s1) /\
    ns_meta (w_store w') iid = Some m' /\
    (forall k, k <> iid -> ns_meta (w_store w') k = ns_meta (w_store w) k) /\
    im_instance_id m' = iid /\
    sm_status (es_meta (default_last_node s1)) = Some (im_status m') /\
    meta_grows m0 m'.
Proof.
  destruct w as [st c]; cbn [w_store w_clock]; intros Hm Hid Hinv.
  destruct (invoke_status _ _ _ _ _ Hinv) as [x Hx].
  pose proof (invoke_no_limit _ _ _ _ _ Hinv) as Hnl.
  rewrite <- (default_status s1) in Hx.
  unfold run. rewrite bind_liftC, Hinv. cbn [fst snd].
  generalize dependent (default_last_node s1); intros s1' Hx.
  pose proof (meta_step_id a s1' m0 c1) as Hid1.
  pose proof (meta_step_grows a s1' m0 c1) as Hg1.
  destruct ir as [p| |]; [| |congruence];
    rewrite bind_put_state, (bind_update_meta _ _ _ _ _ _ m0) by assumption;
    destruct (meta_step a s1' m0 c1) as [m1 c2]; cbn [fst snd] in *;
    rewrite Hid in Hid1.
  - destruct (negb (is_terminal_status (im_status m1))) eqn:Hterm.
    + rewrite bind_assoc, bind_put_meta. cbv beta.
      rewrite bind_ret, bind_append_event.
      finish_run a s1' (im_set_status "paused" m1) c2 Hid1 Hx Hg1.
    + rewrite bind_ret, bind_append_event.
      finish_run a s1' m1 c2 Hid1 Hx Hg1.
  - replace (match sm_status (es_meta s1') with Some x => x | None => im_status m1 end)
      with x by (rewrite Hx; reflexivity).
    unfold run_summary, run_event; rewrite Hx.
    destruct (String.eqb x "completed") eqn:Ec;
      [|destruct (String.eqb x "aborted") eqn:Ea];
      rewrite bind_put_meta, bind_append_event.
    + finish_run a s1' (im_set_status "completed" m1) c2 Hid1 Hx Hg1.
    + finish_run a s1' (im_set_status "aborted" m1) c2 Hid1 Hx Hg1.
    + finish_run a s1' (im_set_status "in_progress" m1) c2 Hid1 Hx Hg1.
Qed.

(* ------------------------------------------------------------------ *)
(** *** [start] and [resume] *)

Definition st_add_index (st : Store) (iid : string) : Store :=
  let idx := match ns_index st "instances" with Some l => l | None => [] end in
  if existsb (String.eqb iid) idx then st
  else mkStore (ns_state st) (ns_meta st) (ns_events st)
         (upd (ns_index st) "instances" (idx ++ [iid])%list).

Lemma bind_add_index {B} iid (f : unit -> M B) st c :
  bind (add_to_index iid) f (mkWorld st c) =
  f tt (mkWorld (st_add_index st iid) c).
Proof.
  unfold add_to_index, st_add_index, bind at 1; cbn.
  destruct (existsb _ _); reflexivity.
Qed.

Lemma st_add_index_fields st iid :
  ns_state (st_add_index st iid) = ns_state st /\
  ns_meta (st_add_index st iid) = ns_meta st /\
  ns_events (st_add_index st iid) = ns_events st.
Proof. unfold st_add_index; destruct (existsb _ _); auto. Qed.

(** The execution state [start] builds, [t] being its [now_iso()]. *)
Definition start_state (workflow_name iid customer_id t : string) : ExecState :=
  mkExecState iid customer_id workflow_name []
    (mkSMeta (Some "in_progress") None (Some t) None).

Definition start_meta (workflow_name iid customer_id started_by t : string)
  : InstanceMeta :=
  mkInstanceMeta iid customer_id workflow_name started_by (Some started_by)
    "in_progress" None (Some t) None [].

Lemma history_upd st k l : history (st_set_events st k l) k = l.
Proof. unfold history; cbn; now rewrite upd_same. Qed.

Lemma start_spec wf iid cust sb w :
  exists t c0 ir s1 c1 w' m' e1 e2,
    invoke (start_state wf iid cust t) c0 = (ir, s1, c1) /\
    start wf iid cust sb w =
      (inr (iid, run_summary iid ir (default_last_node s1)), w') /\
    (forall k, ns_state (w_store w') k =
               upd (ns_state (w_store w)) iid (default_last_node s1) k) /\
    history (w_store w') iid = (history (w_store w) iid ++ [e1; e2])%list /\
    ev_event e1 = "created" /\ ev_event e2 = run_event ir (default_last_node s1) /\
    ns_meta (w_store w') iid = Some m' /\
    (forall k, k <> iid -> ns_meta (w_store w') k = ns_meta (w_store w) k) /\
    im_instance_id m' = iid /\
    sm_status (es_meta (default_last_node s1)) = Some (im_status m') /\
    no_consec_dup (history_nodes m').
Proof.
  destruct w as [st c]; cbn [w_store w_clock].
  unfold start, now. rewrite bind_liftC; cbn [fst snd now_iso].
  set (t := wall c (tick c)).
  rewrite bind_put_state, bind_put_meta, bind_add_index, bind_append_event.
  fold (start_state wf iid cust t). cbn [im_status im_instance_id].
  fold (start_meta wf iid cust sb t).
  set (W := mkWorld _ _).
  destruct (invoke (start_state wf iid cust t) (w_clock W)) as [[ir s1] c1] eqn:Hinv.
  assert (Hm : ns_meta (w_store W) iid = Some (start_meta wf iid cust sb t)).
  { unfold W; cbn [w_store st_set_events ns_meta]. rewrite (proj1 (proj2 (st_add_index_fields _ _))).
    cbn. apply upd_same. }
  destruct (run_spec iid (start_state wf iid cust t) sb W _ ir s1 c1 Hm
              eq_refl Hinv)
    as (w' & m' & e & Hrun & Hs & _ & He & Hek & Hm' & Ho & Hid & Hst & Hg).
  exists t, (w_clock W), ir, s1, c1, w', m'.
  destruct (st_add_index_fields (st_set_meta (st_set_state st iid
      (start_state wf iid cust t)) iid (start_meta wf iid cust sb t)) iid)
      as (Fs & Fm & Fe).
  eexists; exists e.
  split; [exact Hinv|].
  split; [unfold bind at 1; rewrite Hrun; reflexivity|].
  split; [intros k; rewrite Hs; cbn; rewrite Fs; cbn; unfold upd;
          destruct (String.eqb iid k); reflexivity|].
  split; [unfold history at 1; rewrite He, upd_same; unfold W;
          cbn [w_store]; rewrite history_upd;
          unfold history; rewrite Fe; rewrite <- app_assoc; reflexivity|].
  split; [reflexivity|]. split; [exact Hek|]. split; [exact Hm'|].
  split; [intros k Hk; rewrite Ho by exact Hk; cbn; rewrite Fm;
          apply upd_other; congruence|].
  split; [exact Hid|]. split; [exact Hst|].
  destruct Hg as [_ Hg]; apply Hg; exact I.
Qed.

(** The state [resume] runs: the stored state with the updates merged. *)
Definition resume_state (s : ExecState) (updates : Dict) : ExecState :=
  set_bag (dict_update (es_bag s) updates) s.

Lemma resume_none iid a u w :
  ns_state (w_store w) iid = None -> resume iid a u w = (inl (NotFound iid), w).
Proof. intros H; unfold resume, bind; cbn; rewrite H; reflexivity. Qed.

Lemma resume_spec iid a u w s m0 :
  ns_state (w_store w) iid = Some s -> ns_meta (w_store w) iid = Some m0 ->
  im_instance_id m0 = iid ->
  exists c0 ir s1 c1 w' m' e1 e2,
    invoke (resume_state s u) c0 = (ir, s1, c1) /\
    resume iid a u w = (inr (run_summary iid ir (default_last_node s1)), w') /\
    (forall k, ns_state (w_store w') k =
               upd (ns_state (w_store w)) iid (default_last_node s1) k) /\
    history (w_store w') iid = (history (w_store w) iid ++ [e1; e2])%list /\
    ev_event e1 = "resume_command" /\
    ev_event e2 = run_event ir (default_last_node s1) /\
    ns_meta (w_store w') iid = Some m' /\
    (forall k, k <> iid -> ns_meta (w_store w') k = ns_meta (w_store w) k) /\
    im_instance_id m' = iid /\
    sm_status (es_meta (default_last_node s1)) = Some (im_status m') /\
    meta_grows m0 m'.
Proof.
  intros Hs0 Hm0 Hid0.
  destruct w as [st c]; cbn [w_store w_clock] in *.
  unfold resume. unfold bind at 1; cbn [get_store w_store]. rewrite Hs0.
  fold (resume_state s u).
  rewrite bind_put_state, bind_append_event.
  set (W := mkWorld _ _).
  destruct (invoke (resume_state s u) (w_clock W)) as [[ir s1] c1] eqn:Hinv.
  assert (Hm : ns_meta (w_store W) iid = Some m0) by exact Hm0.
  destruct (run_spec iid (resume_state s u) a W m0 ir s1 c1 Hm Hid0 Hinv)
    as (w' & m' & e & Hrun & Hs & _ & He & Hek & Hm' & Ho & Hid & Hst & Hg).
  exists (w_clock W), ir, s1, c1, w', m'.
  eexists; exists e.
  split; [exact Hinv|].
  split; [exact Hrun|].
  split; [intros k; rewrite Hs; cbn; unfold upd;
          destruct (String.eqb iid k); reflexivity|].
  split; [unfold history at 1; rewrite He, upd_same; unfold W;
          cbn [w_store]; rewrite history_upd;
          rewrite <- app_assoc; reflexivity|].
  split; [reflexivity|]. split; [exact Hek|]. split; [exact Hm'|].
  split; [intros k Hk; rewrite Ho by exact Hk; reflexivity|].
  split; [exact Hid|]. split; [exact Hst|]. exact Hg.
Qed.

(* ------------------------------------------------------------------ *)
(** *** Reachable worlds *)

(** A call of the engine's public API that writes to the store:
    [Engine.start] and [Engine.resume]. *)
Inductive Call : Type :=
| CallStart (workflow_name instance_id customer_id started_by : string)
| CallResume (instance_id actor : string) (updates : Dict).

Definition call_id (c : Call) : string :=
  match c with CallStart _ iid _ _ => iid | CallResume iid _ _ => iid end.

Definition call_event (c : Call) : string :=
  match c with CallStart _ _ _ _ => "created" | CallResume _ _ _ => "resume_command" end.

Definition exec_call (c : Call) : M Summary :=
  match c with
  | CallStart wf iid cust sb => r <- start wf iid cust sb ;; ret (snd r)
  | CallResume iid a u => resume iid a u
  end.

(** [start] is called with [str(uuid.uuid4())]: an id the store does not hold. *)
Definition call_ok (c : Call) (w : World) : Prop :=
  match c with
  | CallStart _ iid _ _ =>
      ns_state (w_store w) iid = None /\ ns_meta (w_store w) iid = None
  | CallResume _ _ _ => True
  end.

Inductive Reachable : World -> Prop :=
| reach_init c : Reachable (mkWorld empty_store c)
| reach_call w cl r w' :
    Reachable w -> call_ok cl w -> exec_call cl w = (r, w') -> Reachable w'.

(** The store invariant: state and metadata are written together, under the
    instance's own id, with the same status, and the step history never
    repeats a node twice in a row. *)
Definition inv_at (st : Store) (k : string) : Prop :=
  (ns_state st k = None /\ ns_meta st k = None) \/
  (exists s m, ns_state st k = Some s /\ ns_meta st k = Some m /\
     im_instance_id m = k /\ sm_status (es_meta s) = Some (im_status m) /\
     no_consec_dup (history_nodes m)).

Definition Inv (w : World) : Prop := forall k, inv_at (w_store w) k.

Lemma exec_call_spec cl w r w' :
  Inv w -> call_ok cl w -> exec_call cl w = (r, w') ->
  (r = inl (NotFound (call_id cl)) /\ w' = w /\
   ns_state (w_store w) (call_id cl) = None) \/
  (exists s0 c0 ir s1 c1 m' e1 e2,
    invoke s0 c0 = (ir, s1, c1) /\
    r = inr (run_summary (call_id cl) ir (default_last_node s1)) /\
    (forall k, ns_state (w_store w') k =
               upd (ns_state (w_store w)) (call_id cl) (default_last_node s1) k) /\
    history (w_store w') (call_id cl) =
      (history (w_store w) (call_id cl) ++ [e1; e2])%list /\
    ev_event e1 = call_event cl /\
    ev_event e2 = run_event ir (default_last_node s1) /\
    ns_meta (w_store w') (call_id cl) = Some m' /\
    (forall k, k <> call_id cl -> ns_meta (w_store w') k = ns_meta (w_store w) k) /\
    im_instance_id m' = call_id cl /\
    sm_status (es_meta (default_last_node s1)) = Some (im_status m') /\
    no_consec_dup (history_nodes m') /\
    (forall m0, ns_meta (w_store w) (call_id cl) = Some m0 ->
       meta_grows m0 m' /\ sm_status (es_meta s0) = Some (im_status m0) /\
       exists s, ns_state (w_store w) (call_id cl) = Some s /\
                 es_meta s0 = es_meta s) /\
    (sm_status (es_meta s0) = Some "in_progress" \/
     exists s, ns_state (w_store w) (call_id cl) = Some s /\
               es_meta s0 = es_meta s)).
Proof.
  intros HI Hok Hx; destruct cl as [wf iid cust sb | iid a u]; cbn [call_id call_event].
  - destruct Hok as [_ Hn].
    destruct (start_spec wf iid cust sb w) as
      (t & c0 & ir & s1 & c1 & w1 & m' & e1 & e2 & Hinv & Hst & Hs & Hh & He1 &
       He2 & Hm & Ho & Hid & Hss & Hnc).
    cbn [exec_call] in Hx; unfold bind at 1 in Hx; rewrite Hst in Hx.
    cbn in Hx; inversion Hx; subst r w'; clear Hx.
    right; exists (start_state wf iid cust t), c0, ir, s1, c1, m', e1, e2.
    repeat (split; [eassumption|]).
    split; [reflexivity|].
    repeat (split; [eassumption|]).
    split; [intros m0 Hm0; congruence|].
    left; reflexivity.
  - cbn [exec_call] in Hx.
    destruct (ns_state (w_store w) iid) as [s|] eqn:Es.
    + destruct (HI iid) as [[Hs _]|(s' & m0 & Hs & Hm0 & Hid0 & Hst0 & Hnc0)];
        [congruence|].
      rewrite Es in Hs; inversion Hs; subst s'; clear Hs.
      destruct (resume_spec iid a u w s m0 Es Hm0 Hid0) as
        (c0 & ir & s1 & c1 & w1 & m' & e1 & e2 & Hinv & Hst & Hs & Hh & He1 &
         He2 & Hm & Ho & Hid & Hss & Hg).
      rewrite Hst in Hx; inversion Hx; subst r w'; clear Hx.
      right; exists (resume_state s u), c0, ir, s1, c1, m', e1, e2.
      repeat (split; [eassumption|]).
      split; [reflexivity|].
      repeat (split; [eassumption|]).
      split; [destruct Hg as [_ Hg]; auto|].
      split.
      * intros m1 Hm1; rewrite Hm0 in Hm1; inversion Hm1; subst m1.
        split; [exact Hg|]. split; [exact Hst0|].
        exists s; split; [reflexivity|]. destruct s; reflexivity.
      * right; exists s; split; [reflexivity|]. destruct s; reflexivity.
    + rewrite resume_none in Hx by exact Es.
      inversion Hx; subst; left; auto.
Qed.

Lemma Inv_init c : Inv (mkWorld empty_store c).
Proof. intros k; left; split; reflexivity. Qed.

Lemma Inv_step cl w r w' :
  Inv w -> call_ok cl w -> exec_call cl w = (r, w') -> Inv w'.
Proof.
  intros HI Hok Hx.
  destruct (exec_call_spec cl w r w' HI Hok Hx) as
    [(_ & -> & _)|(s0 & c0 & ir & s1 & c1 & m' & e1 & e2 & _ & _ & Hs & _ & _ &
                   _ & Hm & Ho & Hid & Hss & Hnc & _ & _)]; [exact HI|].
  intros k; unfold inv_at; destruct (String.eqb_spec (call_id cl) k) as [<-|Hk].
  - right; exists (default_last_node s1), m'.
    rewrite Hs, upd_same; auto 6.
  - rewrite (Hs k), upd_other by exact Hk. rewrite (Ho k) by congruence.
    exact (HI k).
Qed.

Lemma Reachable_Inv w : Reachable w -> Inv w.
Proof.
  induction 1 as [c|w cl r w' _ IH Hok Hx]; [apply Inv_init|].
  exact (Inv_step cl w r w' IH Hok Hx).
Qed.

(* ------------------------------------------------------------------ *)
(** *** Facts used by the claims *)

Lemma default_noop s :
  (exists m, sm_last_node (es_meta s) = Some (node_name m)) -> default_last_node s = s.
Proof.
  intros [m Hm]; unfold default_last_node; rewrite Hm; destruct m; reflexivity.
Qed.

Lemma invoke_last_node s c ir s1 c1 :
  invoke s c = (ir, s1, c1) -> exists m, sm_last_node (es_meta s1) = Some (node_name m).
Proof.
  intros H; eapply run_from_last_node; [|exact H]; unfold recursion_limit; lia.
Qed.

Lemma invoke_default s c ir s1 c1 :
  invoke s c = (ir, s1, c1) -> default_last_node s1 = s1.
Proof. intros H; apply default_noop; exact (invoke_last_node _ _ _ _ _ H). Qed.

Lemma resume_state_nil s : resume_state s [] = s.
Proof. destruct s; reflexivity. Qed.

Lemma run_summary_paused iid ir s p i :
  run_summary iid ir s = SumPaused p i -> ir = IRInterrupt p /\ i = iid.
Proof.
  unfold run_summary; destruct ir; cbn; [intros H; inversion H; auto| |];
    destruct (sm_status (es_meta s)); destruct_ifs; discriminate.
Qed.

(** The outcome event kinds of [_run]. *)
Definition outcome_kinds : list string :=
  ["paused"; "progressed"; "completed"; "aborted"].

Lemma run_event_in ir s : In (run_event ir s) outcome_kinds.
Proof.
  unfold run_event, outcome_kinds; destruct ir;
    [cbn; auto| |]; destruct (sm_status (es_meta s)); destruct_ifs; cbn; auto 5.
Qed.

(** The statuses [meta.status] of an execution state can hold. *)
Definition status_known (o : option string) : bool :=
  match o with
  | None => true
  | Some x => String.eqb x "in_progress" || String.eqb x "completed" ||
              String.eqb x "aborted"
  end.

Lemma run_from_known f n s c ir s1 c1 :
  run_from f n s c = (ir, s1, c1) ->
  status_known (sm_status (es_meta s)) = true ->
  status_known (sm_status (es_meta s1)) = true.
Proof.
  revert n s c; induction f as [|f IH]; intros n s c H K.
  - cbn in H; inversion H; subst; exact K.
  - rewrite run_from_S in H.
    destruct (node_fn n s c) as [[o s'] c'] eqn:E.
    apply node_fn_spec in E as (_ & _ & _ & Est).
    assert (K' : status_known (sm_status (es_meta s')) = true).
    { rewrite Est; destruct n; cbn; try reflexivity;
        destruct (sm_status (es_meta s)); cbn; auto. }
    destruct o as [p|]; [inversion H; subst; exact K'|].
    destruct (route n s') as [n'|]; [exact (IH _ _ _ H K')|].
    inversion H; subst; exact K'.
Qed.

Lemma Reachable_known w : Reachable w ->
  forall k s, ns_state (w_store w) k = Some s ->
  status_known (sm_status (es_meta s)) = true.
Proof.
  induction 1 as [c|w cl r w' HR IH Hok Hx]; [discriminate|].
  intros k s Hs.
  destruct (exec_call_spec cl w r w' (Reachable_Inv w HR) Hok Hx) as
    [(_ & -> & _)|(s0 & c0 & ir & s1 & c1 & m' & e1 & e2 & Hinv & _ & Hs' & _ &
                   _ & _ & _ & _ & _ & _ & _ & _ & H0)]; [exact (IH k s Hs)|].
  rewrite Hs' in Hs; unfold upd in Hs.
  destruct (String.eqb (call_id cl) k) eqn:Ek; [|exact (IH k s Hs)].
  inversion Hs; subst s; clear Hs.
  rewrite default_status; apply (run_from_known _ _ _ _ _ _ _ Hinv).
  destruct H0 as [-> | (s & Hs & ->)]; [reflexivity|].
  exact (IH _ s Hs).
Qed.

(** A call that pauses leaves a metadata status that is not ["paused"]. *)
Lemma paused_call_status cl w p i w' :
  Reachable w -> call_ok cl w -> exec_call cl w = (inr (SumPaused p i), w') ->
  exists m', ns_meta (w_store w') (call_id cl) = Some m' /\
             im_status m' <> "paused".
Proof.
  intros HR Hok Hx.
  destruct (exec_call_spec cl w _ w' (Reachable_Inv w HR) Hok Hx) as
    [(H & _)|(s0 & c0 & ir & s1 & c1 & m' & e1 & e2 & Hinv & _ & Hs' & _ &
              _ & _ & Hm & _ & _ & Hss & _ & _ & H0)]; [discriminate|].
  exists m'; split; [exact Hm|].
  assert (HR' : Reachable w') by exact (reach_call w cl _ w' HR Hok Hx).
  pose proof (Reachable_known w' HR' (call_id cl) (default_last_node s1)
                ltac:(rewrite Hs'; apply upd_same)) as K.
  rewrite Hss in K; cbn in K; intros E; rewrite E in K; discriminate.
Qed.

(* ------------------------------------------------------------------ *)
(** *** Paths of the graph on a fixed bag *)

(** The conditional edges read nothing but the bag. *)
Definition route_on_bag (n : Node) (b : Dict) : option Node :=
  route n (mkExecState "" "" "" b (mkSMeta None None None None)).

Lemma route_bag n s : route n s = route_on_bag n (es_bag s).
Proof. reflexivity. Qed.

(** [Visits b n m]: the traversal from [n] on the bag [b] passes through
    guarded steps that return, and reaches [m]. *)
Inductive Visits (b : Dict) : Node -> Node -> Prop :=
| visits_here n : Visits b n n
| visits_next n n' m :
    step_out n b = Ret -> route_on_bag n b = Some n' -> Visits b n' m ->
    Visits b n m.

Definition def_status (st : option string) : option string :=
  match st with Some x => Some x | None => Some "in_progress" end.

Lemma guarded_facts n :
  step_key n <> None ->
  step_bag_effect n = None /\ (forall st, step_status n st = def_status st).
Proof. destruct n; cbn; intros H; try congruence; split; reflexivity. Qed.

Lemma route_guarded n b n' : route_on_bag n b = Some n' -> step_key n <> None.
Proof. destruct n; cbn; intros H; discriminate. Qed.

Lemma visits_rank b n m : Visits b n m -> rank m <= rank n.
Proof.
  induction 1 as [n|n n' m _ R _ IH]; [lia|].
  rewrite <- route_bag with (s := mkExecState "" "" "" b
                               (mkSMeta None None None None)) in R.
  pose proof (route_rank _ _ _ R); lia.
Qed.

Lemma visits_run b n m :
  Visits b n m ->
  step_key m <> None -> step_out m b = Ret -> route_on_bag m b = None ->
  forall f s c, es_bag s = b -> rank n < f ->
  exists s1 c1, run_from f n s c = (IRState, s1, c1) /\
    sm_last_node (es_meta s1) = Some (node_name m) /\
    sm_status (es_meta s1) = def_status (sm_status (es_meta s)) /\
    es_bag s1 = b.
Proof.
  intros HV Hk Ho Hr.
  induction HV as [n|n n' m Hon Hrn HV IH]; intros f s c Hb Hf;
    (destruct f as [|f]; [lia|]); rewrite run_from_S;
    destruct (node_fn n s c) as [[o s'] c'] eqn:E;
    apply node_fn_spec in E as (Eb & El & Eo & Est).
  - destruct (guarded_facts n Hk) as [Hef Hst].
    rewrite Hef in Eb; cbn in Eb. rewrite Eo, Hb, Ho.
    rewrite route_bag, Eb, Hb, Hr.
    exists s', c'; repeat split; [exact El| rewrite Est; apply Hst | congruence].
  - destruct (guarded_facts n (route_guarded _ _ _ Hrn)) as [Hef Hst].
    rewrite Hef in Eb; cbn in Eb. rewrite Eo, Hb, Hon.
    rewrite route_bag, Eb, Hb, Hrn.
    assert (Hrk : rank n' < rank n).
    { rewrite <- route_bag with (s := mkExecState "" "" "" b
                                 (mkSMeta None None None None)) in Hrn.
      exact (route_rank _ _ _ Hrn). }
    destruct (IH Hk Ho Hr f s' c' ltac:(congruence) ltac:(lia)) as (s1 & c1 & R & L & S & B).
    exists s1, c1; repeat split; [exact R|exact L| |exact B].
    rewrite S, Est, Hst; destruct (sm_status (es_meta s)); reflexivity.
Qed.

(* ------------------------------------------------------------------ *)
(** *** The order of [list_instances] *)

Lemma str_compare_le_trans x y z :
  String.compare x y <> Gt -> String.compare y z <> Gt ->
  String.compare x z <> Gt.
Proof.
  revert y z; induction x as [|a x IH]; intros [|b y] [|c z]; cbn;
    try congruence.
  unfold Ascii.compare.
  destruct (N.compare_spec (Ascii.N_of_ascii a) (Ascii.N_of_ascii b)) as [E1|E1|E1];
  destruct (N.compare_spec (Ascii.N_of_ascii b) (Ascii.N_of_ascii c)) as [E2|E2|E2];
  destruct (N.compare_spec (Ascii.N_of_ascii a) (Ascii.N_of_ascii c)) as [E3|E3|E3];
    intros H1 H2; try congruence; try lia; eauto.
Qed.

(** [x] may precede [y] in a list sorted by descending [history_key]. *)
Definition desc_ok (x y : InstanceMeta) : Prop :=
  String.ltb (history_key x) (history_key y) = false.

Lemma ltb_false_iff a b : String.ltb a b = false <-> String.compare b a <> Gt.
Proof.
  unfold String.ltb; rewrite String.compare_antisym with (s1 := a).
  destruct (String.compare b a); cbn; split; congruence.
Qed.

Lemma desc_ok_trans x y z : desc_ok x y -> desc_ok y z -> desc_ok x z.
Proof.
  unfold desc_ok; rewrite !ltb_false_iff; intros H1 H2.
  exact (str_compare_le_trans _ _ _ H2 H1).
Qed.

Lemma desc_ok_swap x y :
  String.ltb (history_key y) (history_key x) = true -> desc_ok x y.
Proof.
  unfold desc_ok, String.ltb; rewrite String.compare_antisym with (s1 := history_key x).
  destruct (String.compare (history_key y) (history_key x)); cbn; congruence.
Qed.

Lemma insert_desc_hd y x l :
  HdRel desc_ok y l -> desc_ok y x -> HdRel desc_ok y (insert_desc x l).
Proof.
  destruct l as [|z l]; cbn; intros H1 H2; [constructor; exact H2|].
  destruct (String.ltb (history_key z) (history_key x)); constructor;
    [exact H2 | inversion H1; assumption].
Qed.

Lemma insert_desc_sorted x l : Sorted desc_ok l -> Sorted desc_ok (insert_desc x l).
Proof.
  induction l as [|y l IH]; cbn; intros H; [repeat constructor|].
  destruct (String.ltb (history_key y) (history_key x)) eqn:E.
  - constructor; [exact H | constructor; apply desc_ok_swap, E].
  - inversion H; subst. constructor; [apply IH; assumption|].
    apply insert_desc_hd; assumption.
Qed.

Lemma insert_desc_perm x l : Permutation (insert_desc x l) (x :: l).
Proof.
  induction l as [|y l IH]; cbn; [reflexivity|].
  destruct (String.ltb _ _); [reflexivity|].
  rewrite IH; apply perm_swap.
Qed.

Lemma sort_desc_gen l acc :
  Sorted desc_ok acc ->
  Sorted desc_ok (fold_left (fun acc x => insert_desc x acc) l acc) /\
  Permutation (fold_left (fun acc x => insert_desc x acc) l acc) (l ++ acc)%list.
Proof.
  revert acc; induction l as [|x l IH]; intros acc H; cbn; [split; [exact H|reflexivity]|].
  destruct (IH (insert_desc x acc) (insert_desc_sorted x acc H)) as [S P].
  split; [exact S|]. rewrite P, insert_desc_perm. symmetry; apply Permutation_middle.
Qed.

Lemma sort_desc_spec l :
  StronglySorted desc_ok (sort_desc l) /\ Permutation (sort_desc l) l.
Proof.
  destruct (sort_desc_gen l [] (Sorted_nil _)) as [S P].
  split; [apply Sorted_StronglySorted; [exact desc_ok_trans|exact S]|].
  rewrite app_nil_r in P; exact P.
Qed.

(** A filter of [list_instances] holds when it is given and not empty. *)
Definition filter_holds (f : option string) (field : string) : Prop :=
  forall v, f = Some v -> v <> "" -> field = v.

Lemma filter_skips_false f field :
  filter_skips f field = false <-> filter_holds f field.
Proof.
  unfold filter_skips, filter_holds, truthy_opt, opt_str_eqb.
  destruct f as [v|]; [|split; [intros _ v H; discriminate | reflexivity]].
  destruct (String.eqb_spec v ""); cbn.
  - split; [intros _ v' H; inversion H; subst; contradiction | reflexivity].
  - destruct (String.eqb_spec field v); cbn.
    + split; [intros _ v' H; inversion H; subst; reflexivity | reflexivity].
    + split; [discriminate|]. intros H; exfalso; apply n0, H; auto.
Qed.

Definition keeps (cust status sb wf : option string) (m : InstanceMeta) : bool :=
  negb (filter_skips wf (im_workflow_name m)) &&
  negb (filter_skips cust (im_customer_id m)) &&
  negb (filter_skips status (im_status m)) &&
  negb (filter_skips sb (im_started_by m)).

Definition keeps_prop (cust status sb wf : option string) (m : InstanceMeta) : Prop :=
  filter_holds wf (im_workflow_name m) /\ filter_holds cust (im_customer_id m) /\
  filter_holds status (im_status m) /\ filter_holds sb (im_started_by m).

Lemma keeps_iff cust status sb wf m :
  keeps cust status sb wf m = true <-> keeps_prop cust status sb wf m.
Proof.
  unfold keeps, keeps_prop; rewrite <- !filter_skips_false.
  destruct (filter_skips wf _), (filter_skips cust _), (filter_skips status _),
    (filter_skips sb _); cbn; intuition congruence.
Qed.

Lemma collect_cons st cust status sb wf iid ids :
  collect st cust status sb wf (iid :: ids) =
  match ns_meta st iid with
  | None => collect st cust status sb wf ids
  | Some m => if keeps cust status sb wf m
              then m :: collect st cust status sb wf ids
              else collect st cust status sb wf ids
  end.
Proof.
  cbn; destruct (ns_meta st iid) as [m|]; [|reflexivity]; unfold keeps.
  destruct (filter_skips wf _), (filter_skips cust _), (filter_skips status _),
    (filter_skips sb _); reflexivity.
Qed.

Lemma collect_spec st cust status sb wf ids m :
  In m (collect st cust status sb wf ids) <->
  exists iid, In iid ids /\ ns_meta st iid = Some m /\
    keeps_prop cust status sb wf m.
Proof.
  induction ids as [|iid ids IH].
  - cbn; split; [contradiction|intros (i & [] & _)].
  - rewrite collect_cons.
    destruct (ns_meta st iid) as [m0|] eqn:Em;
      [destruct (keeps cust status sb wf m0) eqn:K|].
    + split.
      * intros [<-|H]; [exists iid; split; [left; reflexivity|];
                        split; [exact Em|apply keeps_iff, K]|].
        apply IH in H as (i & Hi & R); exists i; split; [right; exact Hi|exact R].
      * intros (i & [<-|Hi] & Hm & P); [left; congruence|].
        right; apply IH; exists i; auto.
    + rewrite IH; split.
      * intros (i & Hi & R); exists i; split; [right; exact Hi|exact R].
      * intros (i & [<-|Hi] & Hm & P); [|exists i; auto].
        rewrite Em in Hm; inversion Hm; subst m0.
        apply keeps_iff in P; congruence.
    + rewrite IH; split.
      * intros (i & Hi & R); exists i; split; [right; exact Hi|exact R].
      * intros (i & [<-|Hi] & Hm & P); [congruence|exists i; auto].
Qed.

Lemma StronglySorted_app_r {A} (R : A -> A -> Prop) l1 l2 :
  StronglySorted R (l1 ++ l2)%list -> StronglySorted R l2.
Proof.
  induction l1 as [|x l1 IH]; cbn; [auto|].
  intros H; inversion H; auto.
Qed.

Lemma ltb_empty_false s : String.ltb "" s = false -> s = "".
Proof. destruct s; [reflexivity|discriminate]. Qed.

Lemma reach_snd w cl :
  Reachable w -> call_ok cl w -> Reachable (snd (exec_call cl w)).
Proof.
  intros HR Hok; exact (reach_call w cl _ _ HR Hok (surjective_pairing _)).
Qed.

Ltac eval_some H :=
  match type of H with _ = Some ?v =>
    let v' := eval vm_compute in v in change v with v' in H end.

(** One [resume] of a run on concrete inputs: [Hs], [Hm] and [Hid] describe
    the stored state and metadata before it, and describe them after it once
    the step is done. *)
Ltac resume_step Hs Hm Hid :=
  match type of Hs with
  | ns_state (w_store ?w) ?iid = Some ?s =>
    match goal with |- context [resume iid ?a ?u w] =>
    let ir := fresh "ir" in let s2 := fresh "s" in
    let w2 := fresh "w" in let m2 := fresh "m" in
    let Hinv := fresh "Hinv" in let Hr := fresh "Hr" in
    let Hs2 := fresh "Hs" in let Hm2 := fresh "Hm" in let Hid2 := fresh "Hid" in
    destruct (resume_spec iid a u w s _ Hs Hm Hid) as
      (? & ir & s2 & ? & w2 & m2 & ? & ? & Hinv & Hr & Hs2 & _ & _ & _ & Hm2 & _ &
       Hid2 & _);
    vm_compute in Hinv; inversion Hinv; subst ir s2; clear Hinv;
    exists w2;
    first [split; [rewrite Hr; vm_compute; reflexivity|]
          | rewrite Hr; vm_compute; reflexivity];
    clear Hs Hm Hid;
    pose proof (Hs2 iid) as Hs; rewrite upd_same in Hs; eval_some Hs;
    rename Hm2 into Hm; rename Hid2 into Hid
    end
  end.

(* ------------------------------------------------------------------ *)
(** *** Concrete runs *)

Definition test_clock : Clock := mkClock 0 (fun _ => "2025-01-01T00:00:00+00:00").
Definition w_init : World := mkWorld empty_store test_clock.

(** The cancel scenario of the spec, then one more resume. *)
Definition call1 : Call := CallStart "ClaimWorkflow" "id1" "C1" "u1".
Definition call2 : Call := CallResume "id1" "u2" [("validate", VStr "yes")].
Definition call3 : Call := CallResume "id1" "u3" [("claim_details", VStr "x")].
Definition call4 : Call := CallResume "id1" "u4" [("process_decision", VStr "cancel")].
Definition call5 : Call :=
  CallResume "id1" "u5" [("process_decision", VStr "suppress");
                         ("proceed_fulfill", VStr "yes")].

Definition w1 : World := snd (exec_call call1 w_init).
Definition w2 : World := snd (exec_call call2 w1).
Definition w3 : World := snd (exec_call call3 w2).
Definition w4 : World := snd (exec_call call4 w3).
Definition w5 : World := snd (exec_call call5 w4).

Lemma reach_w4 : Reachable w4.
Proof.
  apply reach_snd; [|exact I]. apply reach_snd; [|exact I].
  apply reach_snd; [|exact I]. apply reach_snd; [apply reach_init|].
  split; reflexivity.
Qed.

Lemma reach_w1 : Reachable w1.
Proof. apply reach_snd; [apply reach_init | split; reflexivity]. Qed.

(** A state on which [Gather Claim Info] runs. *)
Definition gather_state (details : Value) : ExecState :=
  mkExecState "id1" "C1" "ClaimWorkflow"
    [("validate", VStr "yes"); ("claim_details", details)]
    (mkSMeta (Some "in_progress") (Some "Validate Request")
       (Some "2025-01-01T00:00:00+00:00") None).

Definition gather_x_out := node_fn GatherClaimInfo (gather_state (VStr "x")) test_clock.

(* ================================================================== *)
(** ** The HTTP API ([src/api.py]) *)

(** [engine] of [workflow_backend.py] is an [Engine] over one store: the
    engine of this file.  The request body [StepInput]. *)
Record StepInput : Type := mkStepInput { si_actor : string; si_updates : Dict }.
(** A raised [HTTPException] is an answer of the endpoint, kept apart from
    the engine's own exceptions, which stay in [Exc]. *)
Record HTTPException : Type := mkHTTPException { status_code : nat; detail : string }.
Record HumanStepResponse : Type :=
  mkHumanStepResponse { resp_instance_id : string; resp_result : Summary }.

(** [allowed_steps], a set used only for membership. *)
Definition allowed_steps : list string := ["Gather Claim Info"; "Validate Request"].

(** [x in allowed_steps]; [None] is no member. *)
Definition in_allowed (o : option string) : bool :=
  match o with Some x => existsb (String.eqb x) allowed_steps | None => false end.

(** [f"{meta.last_node}"]: [str] of an optional string. *)
Definition py_str_opt (o : option string) : string :=
  match o with Some x => x | None => "None" end.

(** [POST /workflow/{instance_id}/human-step].  [if not meta]: an
    [InstanceMeta] dataclass is always truthy, so only [None] fails. *)
Definition provide_human_input (instance_id : string) (step_input : StepInput)
  : M (HTTPException + HumanStepResponse) :=
  meta <- get_meta instance_id ;;
  match meta with
  | None => ret (inl (mkHTTPException 404 "Workflow not found"))
  | Some meta =>
      if negb (in_allowed (im_last_node meta)) then
        ret (inl (mkHTTPException 400
                    ("Current step '" ++ py_str_opt (im_last_node meta) ++
                     "' is not allowed via API")))
      else
        result <- resume instance_id (si_actor step_input) (si_updates step_input) ;;
        ret (inr (mkHumanStepResponse instance_id result))
  end.

(** [GET /workflow/pending-human]; [to_dict] is the record itself. *)
Definition pending_human_steps (st : Store) : list InstanceMeta :=
  filter (fun m => in_allowed (im_last_node m))
    (list_instances st None (Some "paused") None None).

Lemma bind_get_meta {B} iid (f : option InstanceMeta -> M B) w :
  bind (get_meta iid) f w = f (ns_meta (w_store w) iid) w.
Proof. reflexivity. Qed.

(* ================================================================== *)
(** ** The Streamlit UI ([src/ui.py]) *)

(** *** [workflow_mermaid] *)

(** The dict [node_ids], in its literal order. *)
Definition node_ids : list (string * string) :=
  [("Validate Request", "A"); ("Gather Claim Info", "B");
   ("Identify Accounts & Process Decision", "D"); ("Cancel CWD Request", "C");
   ("Hold Request", "E"); ("Apply Temporary Suppression", "F");
   ("Fulfill Case and Detect", "G"); ("END", "H")].

(** [node_ids[k]] guarded by [k in node_ids]. *)
Fixpoint lookup_id (k : string) (l : list (string * string)) : option string :=
  match l with
  | [] => None
  | (k', v) :: l' => if String.eqb k k' then Some v else lookup_id k l'
  end.

(** The two style lines of the diagram. *)
Definition visited_style (i : string) : string :=
  "style " ++ i ++ " fill:#e3f2fd,stroke:#1565c0,stroke-width:2px;".
Definition current_style (i : string) : string :=
  "style " ++ i ++ " fill:#ffecb3,stroke:#ff6f00,stroke-width:4px;".

(** [meta.get("last_node") or (meta["steps_history"][0]["node"] if
    meta.get("steps_history") else "Validate Request")]. *)
Definition current_node (m : InstanceMeta) : string :=
  if truthy_opt (im_last_node m)
  then match im_last_node m with Some x => x | None => "" end
  else match im_steps_history m with e :: _ => se_node e | [] => "Validate Request" end.

(** The loop over [steps_history]. *)
Definition visited_styles (h : list StepEntry) : list string :=
  flat_map (fun e => match lookup_id (se_node e) node_ids with
                     | Some i => [visited_style i] | None => [] end) h.

(** The list [visited_styles] at the end: the visited nodes, then the
    current one. *)
Definition mermaid_styles (m : InstanceMeta) : list string :=
  (visited_styles (im_steps_history m) ++
   match lookup_id (current_node m) node_ids with
   | Some i => [current_style i] | None => [] end)%list.

(** A newline. *)
Definition nl : string := String (Ascii.ascii_of_nat 10) EmptyString.

(** The fixed lines of the f-string, from [graph TD] to [C --> H]. *)
Definition mermaid_graph : list string :=
  ["graph TD";
   "    A[Validate Request] -->|yes| B[Gather Claim Info]";
   "    A -->|no| C[Cancel CWD Request]";
   "    B --> D[Identify Accounts & Process Decision]";
   "    D -->|cancel| C";
   "    D -->|hold| E[Hold Request]";
   "    D -->|suppress| F[Apply Temporary Suppression]";
   "    E -->|resume| F";
   "    E -->|abort| C";
   "    F -->|yes| G[Fulfill Case and Detect]";
   "    F -->|no| C";
   "    G --> H[END]";
   "    C --> H"].

(** The returned f-string: a newline, the fixed lines, then [    {styles}]
    with [styles] the style lines joined by a newline and four spaces, and a
    final newline. *)
Definition workflow_mermaid (m : InstanceMeta) : string :=
  nl ++ String.concat nl mermaid_graph ++ nl ++ "    " ++
  String.concat (nl ++ "    ") (mermaid_styles m) ++ nl.

(** *** The listing of all workflows *)

(** [meta = m.to_dict()]; [if not meta.get("last_node"): meta["last_node"] =
    "Validate Request"]. *)
Definition listing_meta (m : InstanceMeta) : InstanceMeta :=
  if truthy_opt (im_last_node m) then m
  else im_set_last_node (Some "Validate Request") m.

Lemma lookup_node n : exists i, lookup_id (node_name n) node_ids = Some i.
Proof. destruct n; eexists; reflexivity. Qed.

Lemma visited_styles_nodes h :
  Forall (fun e => exists n, se_node e = node_name n) h ->
  List.length (visited_styles h) = List.length h /\
  Forall (fun v => exists j, v = visited_style j) (visited_styles h).
Proof.
  induction 1 as [|e h [n He] F IH]; [split; [reflexivity|constructor]|].
  destruct (lookup_node n) as [j Hj].
  unfold visited_styles; cbn [flat_map]; rewrite He, Hj; fold (visited_styles h).
  cbn. destruct IH as [IH1 IH2]; split; [rewrite IH1; reflexivity|].
  constructor; [exists j; reflexivity|exact IH2].
Qed.

(* ================================================================== *)
(** ** More proof vocabulary *)

(** *** Metadata updates *)

Lemma im_set_status_same m : im_set_status (im_status m) m = m.
Proof. destruct m; reflexivity. Qed.

(** The identity fields of a metadata record. *)
Definition meta_ident (m : InstanceMeta) : string * string * string * string :=
  (im_instance_id m, im_customer_id m, im_workflow_name m, im_started_by m).

Lemma assign_ident a s m : meta_ident (assign_from_state a s m) = meta_ident m.
Proof. unfold assign_from_state; destruct_ifs; reflexivity. Qed.

Lemma meta_step_ident a s m c : meta_ident (fst (meta_step a s m c)) = meta_ident m.
Proof. unfold meta_step; destruct (history_advances _ _); apply assign_ident. Qed.

Lemma assign_actor a s m : im_last_actor (assign_from_state a s m) = Some a.
Proof. unfold assign_from_state; destruct_ifs; reflexivity. Qed.

Lemma meta_step_actor a s m c : im_last_actor (fst (meta_step a s m c)) = Some a.
Proof. unfold meta_step; destruct (history_advances _ _); apply assign_actor. Qed.

Lemma assign_last_node a s m :
  im_last_node (assign_from_state a s m) =
  if truthy_opt (sm_last_node (es_meta s)) then sm_last_node (es_meta s)
  else im_last_node m.
Proof. unfold assign_from_state; destruct_ifs; reflexivity. Qed.

Lemma meta_step_last_node a s m c :
  im_last_node (fst (meta_step a s m c)) =
  if truthy_opt (sm_last_node (es_meta s)) then sm_last_node (es_meta s)
  else im_last_node m.
Proof. unfold meta_step; destruct (history_advances _ _); apply assign_last_node. Qed.

Lemma assign_start_time a s m :
  truthy_opt (im_start_time m) = true ->
  im_start_time (assign_from_state a s m) = im_start_time m.
Proof.
  intros H; unfold assign_from_state; cbn.
  destruct (truthy_opt (sm_last_node (es_meta s))); cbn; rewrite H, andb_false_r;
    destruct (truthy_opt (sm_end_time (es_meta s))); reflexivity.
Qed.

Lemma meta_step_start_time a s m c :
  truthy_opt (im_start_time m) = true ->
  im_start_time (fst (meta_step a s m c)) = im_start_time m.
Proof.
  unfold meta_step; destruct (history_advances _ _); apply assign_start_time.
Qed.

Lemma set_status_ident x m : meta_ident (im_set_status x m) = meta_ident m.
Proof. reflexivity. Qed.

(** The node a step-history entry of [s] names. *)
Definition entry_node (s : ExecState) : string :=
  match sm_last_node (es_meta s) with Some x => x | None => "" end.

Lemma meta_step_hist a s m c :
  exists ext, im_steps_history (fst (meta_step a s m c)) =
              (im_steps_history m ++ ext)%list /\ length ext <= 1 /\
    Forall (fun e => se_node e = entry_node s /\ se_actor e = a) ext.
Proof.
  unfold meta_step.
  destruct (history_advances _ _); cbn [fst].
  - eexists; split;
      [unfold add_step; cbn [im_steps_history im_set_history];
       rewrite assign_hist; reflexivity|].
    cbn; split; [lia|]. constructor; [split; reflexivity|constructor].
  - exists []; rewrite assign_hist, app_nil_r; cbn; auto.
Qed.

Lemma last_entry_node_snoc h e : last_entry_node (h ++ [e])%list = Some (se_node e).
Proof. unfold last_entry_node; rewrite rev_app_distr; reflexivity. Qed.

Lemma truthy_opt_node n : truthy_opt (Some (node_name n)) = true.
Proof. destruct n; reflexivity. Qed.

(** After a first update from [s], a second update from [s] does not add a
    step-history entry. *)
Lemma advances_after a s m c x :
  history_advances s
    (assign_from_state a s (im_set_status x (fst (meta_step a s m c)))) = false.
Proof.
  unfold history_advances. rewrite assign_hist. cbn [im_steps_history im_set_status].
  unfold meta_step.
  destruct (history_advances s (assign_from_state a s m)) eqn:E; cbn [fst].
  - unfold add_step; cbn [im_steps_history im_set_history].
    rewrite last_entry_node_snoc; cbn [se_node].
    destruct (sm_last_node (es_meta s)) as [ln|]; cbn; [|reflexivity].
    rewrite String.eqb_refl, andb_false_r; reflexivity.
  - unfold history_advances in E; rewrite assign_hist in E. rewrite assign_hist. exact E.
Qed.

Lemma meta_step_twice_hist a s m c x c' :
  im_steps_history (fst (meta_step a s (im_set_status x (fst (meta_step a s m c))) c')) =
  im_steps_history (fst (meta_step a s m c)).
Proof.
  unfold meta_step at 1. rewrite advances_after; cbn [fst].
  rewrite assign_hist; reflexivity.
Qed.

Lemma assign_idem a s m :
  assign_from_state a s (assign_from_state a s m) = assign_from_state a s m.
Proof.
  destruct m as [i cu wf sb la st ln t0 t1 h]; destruct s as [? ? ? ? [ss sl sst se]].
  unfold assign_from_state; cbn [es_meta sm_status sm_last_node sm_start_time sm_end_time].
  destruct (truthy_opt sl) eqn:El; destruct (truthy_opt se) eqn:Ee;
    destruct (truthy_opt sst) eqn:Es; destruct (truthy_opt t0) eqn:E0; simpl;
    rewrite ?El, ?Ee, ?Es, ?E0; simpl; rewrite ?El, ?Ee, ?Es, ?E0; simpl;
    destruct ss; reflexivity.
Qed.
Lemma assign_start a s m :
  im_start_time (assign_from_state a s m) =
  if truthy_opt (sm_start_time (es_meta s)) && negb (truthy_opt (im_start_time m))
  then sm_start_time (es_meta s) else im_start_time m.
Proof.
  destruct m as [i cu wf sb la st ln t0 t1 h]; destruct s as [? ? ? ? [ss sl sst se]].
  unfold assign_from_state; cbn [es_meta sm_status sm_last_node sm_start_time sm_end_time].
  destruct (truthy_opt sl); destruct (truthy_opt se); simpl;
    destruct (truthy_opt sst && negb (truthy_opt t0)); reflexivity.
Qed.

Lemma assign_set_history a s h m :
  assign_from_state a s (im_set_history h m) = im_set_history h (assign_from_state a s m).
Proof.
  destruct m as [i cu wf sb la st ln t0 t1 h0]; destruct s as [? ? ? ? [ss sl sst se]].
  unfold assign_from_state; cbn [es_meta sm_status sm_last_node sm_start_time sm_end_time].
  destruct (truthy_opt sl); destruct (truthy_opt se); simpl;
    destruct (truthy_opt sst && negb (truthy_opt t0)); destruct ss; reflexivity.
Qed.

Lemma meta_step_idem a s m c c' :
  meta_step a s (fst (meta_step a s m c)) c' = (fst (meta_step a s m c), c').
Proof.
  pose proof (advances_after a s m c (im_status (fst (meta_step a s m c)))) as A.
  rewrite im_set_status_same in A.
  unfold meta_step at 1; rewrite A; f_equal.
  unfold meta_step; destruct (history_advances s (assign_from_state a s m)); cbn [fst].
  - unfold add_step; rewrite assign_set_history, assign_idem; reflexivity.
  - apply assign_idem.
Qed.

(** *** Runs and calls *)

Lemma run_meta iid s a w m0 ir s1 c1 :
  ns_meta (w_store w) iid = Some m0 -> im_instance_id m0 = iid ->
  invoke s (w_clock w) = (ir, s1, c1) ->
  exists c2 c3 x,
    ns_meta (w_store (snd (run iid s a w))) iid =
      Some (fst (meta_step a (default_last_node s1)
             (im_set_status x (fst (meta_step a (default_last_node s1) m0 c2))) c3)).
Proof.
  destruct w as [st c]; cbn [w_store w_clock]; intros Hm Hid Hinv.
  pose proof (invoke_no_limit _ _ _ _ _ Hinv) as Hnl.
  unfold run. rewrite bind_liftC, Hinv. cbn [fst snd].
  generalize dependent (default_last_node s1); intros s1'.
  pose proof (meta_step_id a s1' m0 c1) as Hid1.
  exists c1.
  destruct ir as [p| |]; [| |congruence];
    rewrite bind_put_state, (bind_update_meta _ _ _ _ _ _ m0) by assumption;
    set (m1 := fst (meta_step a s1' m0 c1)) in *;
    set (c2 := snd (meta_step a s1' m0 c1)) in *; rewrite Hid in Hid1.
  - destruct (negb (is_terminal_status (im_status m1))) eqn:Hterm.
    + rewrite bind_assoc, bind_put_meta. cbv beta.
      rewrite bind_ret, bind_append_event.
      unfold update_and_return.
      rewrite (bind_update_meta _ _ _ _ _ _ (im_set_status "paused" m1));
        [| cbn [w_store st_set_events st_set_meta st_set_state ns_meta im_set_status im_instance_id]; rewrite ?Hid1; apply upd_same | exact Hid1].
      pose proof (meta_step_id a s1' (im_set_status "paused" m1) (next_clock c2)) as Hid2.
      cbn [im_set_status im_instance_id] in Hid2; rewrite Hid1 in Hid2.
      rewrite bind_put_meta.
      exists (next_clock c2), "paused".
      cbn. rewrite Hid2. apply upd_same.
    + rewrite bind_ret, bind_append_event.
      unfold update_and_return.
      rewrite (bind_update_meta _ _ _ _ _ _ m1);
        [| cbn [w_store st_set_events st_set_meta st_set_state ns_meta im_set_status im_instance_id]; rewrite ?Hid1; apply upd_same | exact Hid1].
      pose proof (meta_step_id a s1' m1 (next_clock c2)) as Hid2.
      rewrite Hid1 in Hid2.
      rewrite bind_put_meta.
      exists (next_clock c2), (im_status m1).
      rewrite im_set_status_same.
      cbn. rewrite Hid2. apply upd_same.
  - set (x := match sm_status (es_meta s1') with Some x => x | None => im_status m1 end).
    destruct (String.eqb x "completed");
      [|destruct (String.eqb x "aborted")];
      rewrite bind_put_meta, bind_append_event;
      unfold update_and_return;
      match goal with |- context [bind (update_meta_from_state _ _ _) _
                                   (mkWorld (st_set_events (st_set_meta _ _ (im_set_status ?y m1)) _ _) _)] =>
        rewrite (bind_update_meta _ _ _ _ _ _ (im_set_status y m1));
        [| cbn [w_store st_set_events st_set_meta st_set_state ns_meta im_set_status
                im_instance_id]; rewrite ?Hid1; apply upd_same | exact Hid1];
        pose proof (meta_step_id a s1' (im_set_status y m1) (next_clock c2)) as Hid2;
        cbn [im_set_status im_instance_id] in Hid2; rewrite Hid1 in Hid2;
        rewrite bind_put_meta;
        exists (next_clock c2), y;
        cbn; rewrite Hid2; apply upd_same
      end.
Qed.

Lemma start_run wf iid cust sb w :
  exists t W,
    start wf iid cust sb w =
      bind (run iid (start_state wf iid cust t) sb) (fun r => ret (iid, r)) W /\
    ns_state (w_store W) = upd (ns_state (w_store w)) iid (start_state wf iid cust t) /\
    ns_meta (w_store W) = upd (ns_meta (w_store w)) iid (start_meta wf iid cust sb t) /\
    ns_index (w_store W) = ns_index (st_add_index (w_store w) iid) /\
    exists e, ns_events (w_store W) =
                upd (ns_events (w_store w)) iid (history (w_store w) iid ++ [e])%list /\
              ev_event e = "created".
Proof.
  destruct w as [st c]; cbn [w_store w_clock].
  unfold start, now. rewrite bind_liftC; cbn [fst snd now_iso].
  rewrite bind_put_state, bind_put_meta, bind_add_index, bind_append_event.
  fold (start_state wf iid cust (wall c (tick c))). cbn [im_status im_instance_id].
  fold (start_meta wf iid cust sb (wall c (tick c))).
  eexists; eexists; split; [reflexivity|].
  destruct (st_add_index_fields (st_set_meta (st_set_state st iid
      (start_state wf iid cust (wall c (tick c)))) iid
      (start_meta wf iid cust sb (wall c (tick c)))) iid) as (Fs & Fm & Fe).
  cbn [w_store st_set_events ns_state ns_meta ns_index ns_events].
  rewrite Fs, Fm, Fe. split; [reflexivity|]. split; [reflexivity|].
  split; [unfold st_add_index; cbn; destruct (existsb _ _); reflexivity|].
  eexists; split; [unfold history; rewrite Fe; reflexivity | reflexivity].
Qed.

Lemma resume_run iid a u w s :
  ns_state (w_store w) iid = Some s ->
  exists W,
    resume iid a u w = run iid (resume_state s u) a W /\
    ns_state (w_store W) = upd (ns_state (w_store w)) iid (resume_state s u) /\
    ns_meta (w_store W) = ns_meta (w_store w) /\
    ns_index (w_store W) = ns_index (w_store w) /\
    exists e, ns_events (w_store W) =
                upd (ns_events (w_store w)) iid (history (w_store w) iid ++ [e])%list /\
              ev_event e = "resume_command".
Proof.
  intros Hs0; destruct w as [st c]; cbn [w_store w_clock] in *.
  unfold resume. unfold bind at 1; cbn [get_store w_store]. rewrite Hs0.
  fold (resume_state s u).
  rewrite bind_put_state, bind_append_event.
  eexists; split; [reflexivity|].
  split; [reflexivity|]. split; [reflexivity|]. split; [reflexivity|].
  eexists; split; reflexivity.
Qed.

(** The actor a call runs as. *)
Definition call_actor (c : Call) : string :=
  match c with CallStart _ _ _ sb => sb | CallResume _ a _ => a end.

Lemma exec_call_more cl w r w' :
  Inv w -> call_ok cl w -> exec_call cl w = (r, w') ->
  (r = inl (NotFound (call_id cl)) /\ w' = w) \/
  (exists m0 s1 c2 c3 x,
    (match cl with
     | CallStart wf iid cust sb =>
         (exists t, m0 = start_meta wf iid cust sb t) /\
         ns_index (w_store w') = ns_index (st_add_index (w_store w) iid)
     | CallResume _ _ _ =>
         ns_meta (w_store w) (call_id cl) = Some m0 /\
         ns_index (w_store w') = ns_index (w_store w)
     end) /\
    ns_state (w_store w') (call_id cl) = Some s1 /\
    (exists n, sm_last_node (es_meta s1) = Some (node_name n)) /\
    ns_meta (w_store w') (call_id cl) =
      Some (fst (meta_step (call_actor cl) s1
             (im_set_status x (fst (meta_step (call_actor cl) s1 m0 c2))) c3)) /\
    (forall k, k <> call_id cl -> ns_events (w_store w') k = ns_events (w_store w) k)).
Proof.
  intros HI Hok Hx; destruct cl as [wf iid cust sb | iid a u];
    cbn [call_id call_actor].
  - right. cbn [exec_call] in Hx.
    destruct (start_run wf iid cust sb w) as (t & W & Hst & Ws & Wm & Wi & e & We & _).
    unfold bind at 1 in Hx; rewrite Hst in Hx.
    destruct (invoke (start_state wf iid cust t) (w_clock W)) as [[ir s1] c1] eqn:Hinv.
    assert (Hm : ns_meta (w_store W) iid = Some (start_meta wf iid cust sb t))
      by (rewrite Wm; apply upd_same).
    destruct (run_spec iid (start_state wf iid cust t) sb W _ ir s1 c1 Hm eq_refl Hinv)
      as (w1 & m' & e' & Hrun & Hs & Hi & He & _).
    destruct (run_meta iid (start_state wf iid cust t) sb W _ ir s1 c1 Hm eq_refl Hinv)
      as (c2 & c3 & x & Hm').
    rewrite Hrun in Hm'; cbn [snd] in Hm'.
    unfold bind at 1 in Hx; rewrite Hrun in Hx; cbn in Hx.
    inversion Hx; subst r w'; clear Hx.
    rewrite (invoke_default _ _ _ _ _ Hinv) in Hs, Hm'.
    exists (start_meta wf iid cust sb t), s1, c2, c3, x.
    split; [split; [eauto | rewrite Hi; exact Wi]|].
    split; [rewrite Hs; apply upd_same|].
    split; [exact (invoke_last_node _ _ _ _ _ Hinv)|].
    split; [exact Hm'|].
    intros k Hk; rewrite He, upd_other by congruence.
    rewrite We, upd_other by congruence; reflexivity.
  - cbn [exec_call] in Hx.
    destruct (ns_state (w_store w) iid) as [s|] eqn:Es;
      [|rewrite resume_none in Hx by exact Es; inversion Hx; subst; left; auto].
    right.
    destruct (HI iid) as [[Hs _]|(s' & m0 & Hs & Hm0 & Hid0 & _)]; [congruence|].
    destruct (resume_run iid a u w s Es) as (W & Hr & Ws & Wm & Wi & e & We & _).
    rewrite Hr in Hx.
    destruct (invoke (resume_state s u) (w_clock W)) as [[ir s1] c1] eqn:Hinv.
    assert (Hm : ns_meta (w_store W) iid = Some m0) by (rewrite Wm; exact Hm0).
    destruct (run_spec iid (resume_state s u) a W _ ir s1 c1 Hm Hid0 Hinv)
      as (w1 & m' & e' & Hrun & Hs1 & Hi & He & _).
    destruct (run_meta iid (resume_state s u) a W _ ir s1 c1 Hm Hid0 Hinv)
      as (c2 & c3 & x & Hm').
    rewrite Hrun in Hm', Hx; cbn [snd] in Hm'.
    inversion Hx; subst r w'; clear Hx.
    rewrite (invoke_default _ _ _ _ _ Hinv) in Hs1, Hm'.
    exists m0, s1, c2, c3, x.
    split; [split; [exact Hm0 | rewrite Hi; exact Wi]|].
    split; [rewrite Hs1; apply upd_same|].
    split; [exact (invoke_last_node _ _ _ _ _ Hinv)|].
    split; [exact Hm'|].
    intros k Hk; rewrite He, upd_other by congruence.
    rewrite We, upd_other by congruence; reflexivity.
Qed.

(** *** The index and the event log *)

(** The instance ids of the index, [... or []]. *)
Definition index_of (st : Store) : list string :=
  match ns_index st "instances" with Some l => l | None => [] end.

Definition index_ok (st : Store) : Prop :=
  NoDup (index_of st) /\ (forall k, In k (index_of st) <-> ns_meta st k <> None).

Lemma existsb_eqb_false iid l : existsb (String.eqb iid) l = false <-> ~ In iid l.
Proof.
  rewrite <- Bool.not_true_iff_false, existsb_exists; split.
  - intros H Hin; apply H; exists iid; split; [exact Hin | apply String.eqb_refl].
  - intros H (x & Hx & E); apply String.eqb_eq in E; subst; contradiction.
Qed.

Lemma index_of_add st iid :
  index_of (st_add_index st iid) =
  if existsb (String.eqb iid) (index_of st) then index_of st
  else (index_of st ++ [iid])%list.
Proof.
  unfold index_of, st_add_index; cbv zeta.
  destruct (existsb _ _); [reflexivity|].
  cbn [ns_index]; rewrite upd_same; reflexivity.
Qed.

Lemma index_of_eq st st' : ns_index st' = ns_index st -> index_of st' = index_of st.
Proof. intros H; unfold index_of; rewrite H; reflexivity. Qed.

Lemma Reachable_index w : Reachable w -> index_ok (w_store w).
Proof.
  induction 1 as [c|w cl r w' HR IH Hok Hx].
  - split; [constructor | intros k; cbn; split; [contradiction | intros H; apply H; reflexivity]].
  - pose proof (Reachable_Inv w HR) as HI.
    destruct (exec_call_more cl w r w' HI Hok Hx) as [(_ & ->)|M]; [exact IH|].
    destruct (exec_call_spec cl w r w' HI Hok Hx) as
      [(_ & -> & _)|(s0 & c0 & ir & s1 & c1 & m' & e1 & e2 & _ & _ & _ & _ & _ & _ &
                     Hm & Ho & _)]; [exact IH|].
    destruct M as (m0 & s1' & c2 & c3 & x & Hc & _).
    destruct IH as [ND Mem]; unfold index_ok.
    destruct cl as [wf iid cust sb | iid a u]; cbn [call_id] in *.
    + destruct Hok as [_ Hn]. destruct Hc as [_ Hi].
      rewrite (index_of_eq _ _ Hi), index_of_add.
      assert (Hnin : ~ In iid (index_of (w_store w))) by (rewrite Mem; auto).
      apply existsb_eqb_false in Hnin as E; rewrite E.
      split.
      * apply NoDup_app; [exact ND | constructor; [intros []|constructor] |].
        intros k Hk [<-|[]]; contradiction.
      * intros k; rewrite in_app_iff; cbn.
        destruct (String.eqb_spec iid k) as [<-|Hk].
        -- rewrite Hm; split; [discriminate | auto].
        -- rewrite (Ho k) by congruence; rewrite Mem; intuition.
    + destruct Hc as [Hm0 Hi]. rewrite (index_of_eq _ _ Hi). split; [exact ND|].
      intros k; destruct (String.eqb_spec iid k) as [<-|Hk].
      * rewrite Hm, Mem, Hm0; split; discriminate.
      * rewrite (Ho k) by congruence; apply Mem.
Qed.

(** The shape of an event log: a [created] event and an outcome, then a
    [resume_command] and an outcome per resume. *)
Fixpoint pairs_ok (l : list Event) : Prop :=
  match l with
  | [] => True
  | e1 :: e2 :: r =>
      ev_event e1 = "resume_command" /\ In (ev_event e2) outcome_kinds /\ pairs_ok r
  | [_] => False
  end.

Definition log_ok (l : list Event) : Prop :=
  exists e1 e2 r, l = e1 :: e2 :: r /\ ev_event e1 = "created" /\
    In (ev_event e2) outcome_kinds /\ pairs_ok r.

Definition log_inv (st : Store) : Prop :=
  forall k, (ns_state st k = None /\ history st k = []) \/
            (ns_state st k <> None /\ log_ok (history st k)).

Lemma pairs_ok_snoc l e1 e2 :
  pairs_ok l -> ev_event e1 = "resume_command" -> In (ev_event e2) outcome_kinds ->
  pairs_ok (l ++ [e1; e2])%list.
Proof.
  revert l; fix IH 1; intros l; destruct l as [|a [|b l]]; cbn; [auto|tauto|].
  intros (Ha & Hb & P) H1 H2; split; [exact Ha|]. split; [exact Hb|].
  exact (IH l P H1 H2).
Qed.

Lemma history_eq st st' k : ns_events st' k = ns_events st k -> history st' k = history st k.
Proof. intros H; unfold history; rewrite H; reflexivity. Qed.

Lemma Reachable_log w : Reachable w -> log_inv (w_store w).
Proof.
  induction 1 as [c|w cl r w' HR IH Hok Hx].
  - intros k; left; split; reflexivity.
  - pose proof (Reachable_Inv w HR) as HI.
    destruct (exec_call_more cl w r w' HI Hok Hx) as [(_ & ->)|M]; [exact IH|].
    destruct (exec_call_spec cl w r w' HI Hok Hx) as
      [(_ & -> & _)|(s0 & c0 & ir & s1 & c1 & m' & e1 & e2 & _ & _ & Hs & Hh & He1 &
                     He2 & _)]; [exact IH|].
    destruct M as (m0 & s1' & c2 & c3 & x & Hc & Hs' & _ & _ & Hev).
    intros k; destruct (String.eqb_spec (call_id cl) k) as [<-|Hk].
    + right; split; [rewrite Hs'; discriminate|]. rewrite Hh.
      assert (E2 : In (ev_event e2) outcome_kinds) by (rewrite He2; apply run_event_in).
      destruct cl as [wf iid cust sb | iid a u]; cbn [call_id call_event] in *.
      * destruct Hok as [Hn _].
        destruct (IH iid) as [[_ ->]|[Hs0 _]]; [|contradiction].
        exists e1, e2, []; cbn; auto.
      * destruct (IH iid) as [[Hs0 _]|[_ (f1 & f2 & l & -> & F1 & F2 & P)]].
        -- destruct Hc as [Hm0 _].
           destruct (HI iid) as [[_ Hn]|(s & m & Hs2 & _)]; [congruence|congruence].
        -- exists f1, f2, (l ++ [e1; e2])%list; split; [reflexivity|].
           split; [exact F1|]. split; [exact F2|]. apply pairs_ok_snoc; assumption.
    + rewrite (Hs k), upd_other by exact Hk.
      rewrite (history_eq _ _ k (Hev k ltac:(congruence))). exact (IH k).
Qed.

(** *** Nodes the metadata names *)

(** Every node an instance's metadata names is a node of the graph. *)
Definition meta_nodes_ok (m : InstanceMeta) : Prop :=
  (exists n, im_last_node m = Some (node_name n)) /\
  Forall (fun e => exists n, se_node e = node_name n) (im_steps_history m).

Lemma call_meta_hist a s1 m0 c2 c3 x :
  exists ext,
    im_steps_history (fst (meta_step a s1 (im_set_status x (fst (meta_step a s1 m0 c2))) c3)) =
      (im_steps_history m0 ++ ext)%list /\ length ext <= 1 /\
    Forall (fun e => se_node e = entry_node s1 /\ se_actor e = a) ext.
Proof.
  rewrite meta_step_twice_hist. apply meta_step_hist.
Qed.

Lemma call_meta_last_node a s1 m0 c2 c3 x n :
  sm_last_node (es_meta s1) = Some (node_name n) ->
  im_last_node (fst (meta_step a s1 (im_set_status x (fst (meta_step a s1 m0 c2))) c3)) =
    Some (node_name n).
Proof.
  intros H; rewrite meta_step_last_node, H, truthy_opt_node; reflexivity.
Qed.

Lemma Reachable_nodes w : Reachable w ->
  forall k m, ns_meta (w_store w) k = Some m -> meta_nodes_ok m.
Proof.
  induction 1 as [c|w cl r w' HR IH Hok Hx]; [discriminate|].
  pose proof (Reachable_Inv w HR) as HI.
  destruct (exec_call_more cl w r w' HI Hok Hx) as [(_ & ->)|M]; [exact IH|].
  destruct (exec_call_spec cl w r w' HI Hok Hx) as
    [(_ & -> & _)|(s0 & c0 & ir & s1 & c1 & m' & e1 & e2 & _ & _ & _ & _ & _ & _ &
                   _ & Ho & _)]; [exact IH|].
  destruct M as (m0 & s1' & c2 & c3 & x & Hc & _ & [n Hn] & Hm & _).
  intros k m Hk.
  destruct (String.eqb_spec (call_id cl) k) as [<-|Hne];
    [|rewrite (Ho k) in Hk by congruence; exact (IH k m Hk)].
  rewrite Hk in Hm; inversion Hm; subst m; clear Hm.
  split; [eexists; apply call_meta_last_node; exact Hn|].
  destruct (call_meta_hist (call_actor cl) s1' m0 c2 c3 x) as (ext & -> & _ & F).
  apply Forall_app; split.
  - destruct cl as [wf iid cust sb | iid a u]; cbn [call_id] in *.
    + destruct Hc as [[t ->] _]; constructor.
    + destruct Hc as [Hm0 _]; exact (proj2 (IH _ _ Hm0)).
  - eapply Forall_impl; [|exact F]. intros e [He _]; exists n.
    rewrite He; unfold entry_node; rewrite Hn; reflexivity.
Qed.

Lemma collect_ids_nodup st ids :
  NoDup ids -> (forall k m, ns_meta st k = Some m -> im_instance_id m = k) ->
  NoDup (map im_instance_id (collect st None None None None ids)).
Proof.
  intros ND Hid; induction ND as [|i ids Hni ND IH]; [constructor|].
  rewrite collect_cons.
  destruct (ns_meta st i) as [m|] eqn:Em; [|exact IH].
  replace (keeps None None None None m) with true by reflexivity.
  cbn; constructor; [|exact IH].
  rewrite (Hid _ _ Em). intros Hin.
  apply in_map_iff in Hin as (m' & Hm' & Hin).
  apply collect_spec in Hin as (j & Hj & Hmj & _).
  rewrite (Hid _ _ Hmj) in Hm'; subst j; contradiction.
Qed.

(** The step history a call starts from: that of the stored metadata, and
    none for a start. *)
Definition prior_history (st : Store) (iid : string) : list StepEntry :=
  match ns_meta st iid with Some m => im_steps_history m | None => [] end.

(** *** Store helpers, the recursion limit and more concrete runs *)

Lemma bind_ret_r {A} (m : M A) w : bind m ret w = m w.
Proof. unfold bind; destruct (m w) as [[e|a] w']; reflexivity. Qed.

Lemma update_meta_eq iid a s st c m :
  ns_meta st iid = Some m -> im_instance_id m = iid ->
  update_meta_from_state iid a s (mkWorld st c) =
  (inr (fst (meta_step a s m c)),
   mkWorld (st_set_meta st iid (fst (meta_step a s m c))) (snd (meta_step a s m c))).
Proof.
  intros Hm Hid; rewrite <- bind_ret_r.
  exact (bind_update_meta iid a s ret st c m Hm Hid).
Qed.

Definition meta_only_world : World :=
  mkWorld (st_set_meta (w_store w_init) "id1"
             (start_meta "ClaimWorkflow" "id1" "C1" "u1" "t0")) test_clock.

Lemma add_index_eq iid st c :
  add_to_index iid (mkWorld st c) = (inr tt, mkWorld (st_add_index st iid) c).
Proof. rewrite <- bind_ret_r. apply bind_add_index. Qed.

Lemma rank_pos n : 1 <= rank n.
Proof. destruct n; cbn; lia. Qed.

Lemma run_from_fuel f f' n s c :
  rank n <= f -> rank n <= f' -> run_from f n s c = run_from f' n s c.
Proof.
  revert f' n s c; induction f as [|f IH]; intros f' n s c H H'.
  - pose proof (rank_pos n); lia.
  - destruct f' as [|f']; [pose proof (rank_pos n); lia|].
    rewrite !run_from_S.
    destruct (node_fn n s c) as [[o s'] c'].
    destruct o; [reflexivity|].
    destruct (route n s') as [n'|] eqn:R; [|reflexivity].
    apply route_rank in R. apply IH; lia.
Qed.

(** [self.graph.invoke(state, {"recursion_limit": limit})]: LangGraph
    counts the input as a step, so at most [limit - 1] steps run before
    [GraphRecursionError]. *)
Definition graph_invoke (limit : nat) (s : ExecState)
  : Clk (InvokeResult * ExecState) :=
  run_from (limit - 1) ValidateRequest s.

(** A bag that leads the traversal along the longest path of the graph. *)
Definition longest_path_state : ExecState :=
  mkExecState "id1" "C1" "ClaimWorkflow"
    [("validate", VStr "yes"); ("claim_details", VStr "x");
     ("process_decision", VStr "hold"); ("hold_action", VStr "resume");
     ("proceed_fulfill", VStr "yes")]
    (mkSMeta None None None None).

Lemma reach_w3 : Reachable w3.
Proof.
  apply reach_snd; [|exact I]. apply reach_snd; [|exact I].
  apply reach_snd; [apply reach_init|]. split; reflexivity.
Qed.

Lemma exec_call4 :
  exec_call call4 w3 =
  (inr (SumAborted "Cancel CWD Request" (VStr "Workflow aborted.") "id1"), w4).
Proof.
  assert (F : fst (exec_call call4 w3) =
              inr (SumAborted "Cancel CWD Request" (VStr "Workflow aborted.") "id1"))
    by (vm_compute; reflexivity).
  unfold w4; rewrite <- F; apply surjective_pairing.
Qed.

(** The metadata stored for ["id1"] after the first three calls of the
    cancel scenario. *)
Definition meta_w3 : InstanceMeta :=
  Eval vm_compute in
    match ns_meta (w_store w3) "id1" with
    | Some m => m | None => start_meta "" "" "" "" "" end.

(** The metadata stored for ["id1"] after the cancel scenario. *)
Definition meta_w4 : InstanceMeta :=
  Eval vm_compute in
    match ns_meta (w_store w4) "id1" with
    | Some m => m | None => start_meta "" "" "" "" "" end.

(* ================================================================== *)
(** ** The claims *)

(** C1 (the code departs from it): a start or resume call whose run pauses
    leaves the instance metadata with a status other than ["paused"]:
    [update_and_return] rewrites [meta.status] from the execution state
    (["in_progress"] here) after the ["paused"] override. *)
Theorem C1_paused_call_status cl w p i w' :
  Reachable w -> call_ok cl w -> exec_call cl w = (inr (SumPaused p i), w') ->
  exists m', ns_meta (w_store w') (call_id cl) = Some m' /\
             im_status m' <> "paused".
Proof.
  intros HR Hok Hx.
  destruct (exec_call_spec cl w _ w' (Reachable_Inv w HR) Hok Hx) as
    [(H & _)|(s0 & c0 & ir & s1 & c1 & m' & e1 & e2 & Hinv & _ & Hs' & _ &
              _ & _ & Hm & _ & _ & Hss & _ & _ & H0)]; [discriminate|].
  exists m'; split; [exact Hm|].
  assert (HR' : Reachable w') by exact (reach_call w cl _ w' HR Hok Hx).
  pose proof (Reachable_known w' HR' (call_id cl) (default_last_node s1)
                ltac:(rewrite Hs'; apply upd_same)) as K.
  rewrite Hss in K; cbn in K; intros E; rewrite E in K; discriminate.
Qed.

Lemma C1_witness :
  Reachable w_init /\ call_ok call1 w_init /\
  exec_call call1 w_init = (inr (SumPaused "Validate request? (yes/no)" "id1"), w1) /\
  exists m', ns_meta (w_store w1) "id1" = Some m' /\ im_status m' <> "paused".
Proof.
  assert (Hok : call_ok call1 w_init) by (split; reflexivity).
  assert (Hx : exec_call call1 w_init =
               (inr (SumPaused "Validate request? (yes/no)" "id1"), w1)).
  { assert (F : fst (exec_call call1 w_init) =
                 inr (SumPaused "Validate request? (yes/no)" "id1"))
      by (vm_compute; reflexivity).
    unfold w1; rewrite <- F; apply surjective_pairing. }
  split; [apply reach_init|]. split; [exact Hok|]. split; [exact Hx|].
  exact (C1_paused_call_status call1 w_init _ _ w1 (reach_init _) Hok Hx).
Defined.

(** The metadata of the paused instance of [C1_witness] holds ["in_progress"]. *)
Example C1_stored_status :
  option_map im_status (ns_meta (w_store w1) "id1") = Some "in_progress".
Proof. vm_compute; reflexivity. Qed.

(** C2 (amended): once an instance's metadata status is ["completed"] or
    ["aborted"], every later start or resume call leaves it ["completed"] or
    ["aborted"]; it can switch between the two. *)
Theorem C2_terminal_stays_terminal w cl r w' k m :
  Reachable w -> call_ok cl w -> exec_call cl w = (r, w') ->
  ns_meta (w_store w) k = Some m -> is_terminal_status (im_status m) = true ->
  exists m', ns_meta (w_store w') k = Some m' /\
             is_terminal_status (im_status m') = true.
Proof.
  intros HR Hok Hx Hm Ht.
  destruct (exec_call_spec cl w r w' (Reachable_Inv w HR) Hok Hx) as
    [(_ & -> & _)|(s0 & c0 & ir & s1 & c1 & m' & e1 & e2 & Hinv & _ & _ & _ &
                   _ & _ & Hm' & Ho & _ & Hss & _ & H0 & _)]; [eauto|].
  destruct (String.eqb_spec k (call_id cl)) as [->|Hk].
  - exists m'; split; [exact Hm'|].
    destruct (H0 m Hm) as (_ & Hs0 & _).
    destruct (run_from_status recursion_limit _ _ _ _ _ _
                ltac:(unfold recursion_limit; lia) Hinv)
      as [_ T].
    rewrite Hs0 in T; specialize (T Ht).
    rewrite <- default_status, Hss in T; exact T.
  - exists m; split; [rewrite Ho by exact Hk; exact Hm | exact Ht].
Qed.

Lemma C2_witness :
  Reachable w4 /\ call_ok call5 w4 /\
  exec_call call5 w4 = (fst (exec_call call5 w4), w5) /\
  exists m, ns_meta (w_store w4) "id1" = Some m /\
    is_terminal_status (im_status m) = true /\
    exists m', ns_meta (w_store w5) "id1" = Some m' /\
               is_terminal_status (im_status m') = true.
Proof.
  assert (Hx : exec_call call5 w4 = (fst (exec_call call5 w4), w5))
    by (unfold w5; apply surjective_pairing).
  split; [exact reach_w4|]. split; [exact I|]. split; [exact Hx|].
  destruct (ns_meta (w_store w4) "id1") as [m|] eqn:E;
    [|vm_compute in E; discriminate].
  assert (T : is_terminal_status (im_status m) = true).
  { assert (E' := E); vm_compute in E'; inversion E'; reflexivity. }
  exists m; split; [reflexivity|]. split; [exact T|].
  exact (C2_terminal_stays_terminal w4 call5 _ w5 "id1" m reach_w4 I Hx E T).
Defined.

(** C2 fails as stated: after the cancel scenario ends ["aborted"], a resume
    with [process_decision = "suppress"] and [proceed_fulfill = "yes"]
    changes the metadata status to ["completed"] (and a second terminal
    event is logged). *)
Lemma C2_counterexample :
  ~ (forall w cl r w' k m,
       Reachable w -> call_ok cl w -> exec_call cl w = (r, w') ->
       ns_meta (w_store w) k = Some m -> is_terminal_status (im_status m) = true ->
       exists m', ns_meta (w_store w') k = Some m' /\ im_status m' = im_status m).
Proof.
  intros H.
  destruct (ns_meta (w_store w4) "id1") as [m|] eqn:E;
    [|vm_compute in E; discriminate].
  assert (E' := E); vm_compute in E'; inversion E'; subst m; clear E'.
  destruct (H w4 call5 _ w5 "id1" _ reach_w4 I
              (surjective_pairing _) E eq_refl) as (m' & Hm' & Hst).
  vm_compute in Hm'; inversion Hm'; subst m'; discriminate.
Qed.

(** The event kinds of the run of [C2_counterexample]. *)
Example C2_events :
  map ev_event (history (w_store w5) "id1") =
  ["created"; "paused"; "resume_command"; "paused"; "resume_command";
   "paused"; "resume_command"; "aborted"; "resume_command"; "completed"].
Proof. vm_compute; reflexivity. Qed.

(** C3: right after a successful start or resume of an instance, a resume of
    it with empty updates leaves its bag and its [last_node] unchanged, and
    if the previous call paused with a prompt, it pauses with the same
    prompt. *)
Theorem C3_empty_resume_idempotent w0 cl r1 w1' a :
  Reachable w0 -> call_ok cl w0 -> exec_call cl w0 = (inr r1, w1') ->
  exists r2 w2' s1 s2,
    resume (call_id cl) a [] w1' = (inr r2, w2') /\
    ns_state (w_store w1') (call_id cl) = Some s1 /\
    ns_state (w_store w2') (call_id cl) = Some s2 /\
    es_bag s2 = es_bag s1 /\
    sm_last_node (es_meta s2) = sm_last_node (es_meta s1) /\
    (forall p, r1 = SumPaused p (call_id cl) -> r2 = SumPaused p (call_id cl)).
Proof.
  intros HR Hok Hx.
  destruct (exec_call_spec cl w0 _ w1' (Reachable_Inv w0 HR) Hok Hx) as
    [(H & _)|(s0 & c0 & ir & s1 & c1 & m' & e1 & e2 & Hinv & Hr & Hs & _ &
              _ & _ & Hm & _ & Hid & _)]; [discriminate|].
  rewrite (invoke_default _ _ _ _ _ Hinv) in Hr, Hs.
  assert (Hs1 : ns_state (w_store w1') (call_id cl) = Some s1)
    by (rewrite Hs; apply upd_same).
  destruct (resume_spec (call_id cl) a [] w1' s1 m' Hs1 Hm Hid) as
    (c0' & ir2 & s2 & c2 & w2' & m2 & e3 & e4 & Hinv2 & Hr2 & Hs2 & _).
  rewrite resume_state_nil in Hinv2.
  destruct (invoke_idem _ _ _ _ _ _ _ _ _ Hinv Hinv2) as (<- & Hb & Hl).
  rewrite (invoke_default _ _ _ _ _ Hinv2) in Hr2, Hs2.
  exists (run_summary (call_id cl) ir s2), w2', s1, s2.
  split; [exact Hr2|]. split; [exact Hs1|].
  split; [rewrite Hs2; apply upd_same|].
  split; [exact Hb|]. split; [exact Hl|].
  intros p Hp; subst r1; injection Hr as Hr; symmetry in Hr.
  destruct (run_summary_paused _ _ _ _ _ Hr) as [-> _]; reflexivity.
Qed.

Lemma C3_witness :
  Reachable w_init /\ call_ok call1 w_init /\
  exec_call call1 w_init = (inr (SumPaused "Validate request? (yes/no)" "id1"), w1) /\
  exists r2 w2' s1 s2,
    resume "id1" "u2" [] w1 = (inr r2, w2') /\
    ns_state (w_store w1) "id1" = Some s1 /\
    ns_state (w_store w2') "id1" = Some s2 /\
    es_bag s2 = es_bag s1 /\
    sm_last_node (es_meta s2) = sm_last_node (es_meta s1) /\
    (forall p, SumPaused "Validate request? (yes/no)" "id1" = SumPaused p "id1" ->
               r2 = SumPaused p "id1").
Proof.
  assert (Hok : call_ok call1 w_init) by (split; reflexivity).
  assert (Hx : exec_call call1 w_init =
               (inr (SumPaused "Validate request? (yes/no)" "id1"), w1)).
  { assert (F : fst (exec_call call1 w_init) =
                 inr (SumPaused "Validate request? (yes/no)" "id1"))
      by (vm_compute; reflexivity).
    unfold w1; rewrite <- F; apply surjective_pairing. }
  split; [apply reach_init|]. split; [exact Hok|]. split; [exact Hx|].
  exact (C3_empty_resume_idempotent w_init call1 _ w1 "u2" (reach_init _) Hok Hx).
Defined.

(** C4: when the merged bag of a resume leads the traversal from
    [Validate Request] to a guarded step whose key is present but whose value
    the step's condition does not recognise (its route is [END]), the resume
    returns [in_progress] at that step, logs a [progressed] event, and an
    ["in_progress"] instance stays ["in_progress"]. *)
Theorem C4_unmatched_guard_stalls w iid a u s m n k :
  Reachable w ->
  ns_state (w_store w) iid = Some s -> ns_meta (w_store w) iid = Some m ->
  im_status m = "in_progress" ->
  Visits (dict_update (es_bag s) u) ValidateRequest n ->
  step_key n = Some k -> dict_mem k (dict_update (es_bag s) u) = true ->
  route_on_bag n (dict_update (es_bag s) u) = None ->
  exists w' m' e1 e2,
    resume iid a u w = (inr (SumInProgress (node_name n) iid), w') /\
    ns_meta (w_store w') iid = Some m' /\ im_status m' = "in_progress" /\
    history (w_store w') iid = (history (w_store w) iid ++ [e1; e2])%list /\
    ev_event e2 = "progressed".
Proof.
  intros HR Hs Hm Hst HV Hk Hmem Hroute.
  destruct (Reachable_Inv w HR iid) as [[Hn _]|(s' & m0 & Hs' & Hm0 & Hid & Hss & _)];
    [congruence|].
  rewrite Hs in Hs'; inversion Hs'; subst s'; clear Hs'.
  rewrite Hm in Hm0; inversion Hm0; subst m0; clear Hm0.
  destruct (resume_spec iid a u w s m Hs Hm Hid) as
    (c0 & ir & s1 & c1 & w' & m' & e1 & e2 & Hinv & Hr & _ & Hh & _ & He2 &
     Hm' & _ & _ & Hss' & _).
  assert (Ho : step_out n (dict_update (es_bag s) u) = Ret)
    by (unfold step_out; rewrite Hk, Hmem; reflexivity).
  destruct (visits_run _ _ _ HV ltac:(congruence) Ho Hroute recursion_limit
              (resume_state s u) c0 ltac:(destruct s; reflexivity)
              ltac:(unfold recursion_limit; cbn; lia)) as (s2 & c2 & R & L & S & _).
  unfold invoke in Hinv; rewrite R in Hinv; inversion Hinv; subst ir s2 c2.
  clear Hinv.
  assert (Hd : default_last_node s1 = s1) by (apply default_noop; eauto).
  rewrite Hd in Hr, He2, Hss'.
  assert (S' : sm_status (es_meta s1) = Some "in_progress").
  { rewrite S; destruct s as [? ? ? ? [? ? ? ?]]; cbn in Hss |- *.
    rewrite Hss, Hst; reflexivity. }
  exists w', m', e1, e2.
  split; [rewrite Hr; unfold run_summary; rewrite L, S'; reflexivity|].
  split; [exact Hm'|].
  split; [rewrite S' in Hss'; inversion Hss'; reflexivity|].
  split; [exact Hh|].
  rewrite He2; unfold run_event; rewrite S'; reflexivity.
Qed.

Lemma C4_witness :
  Reachable w1 /\
  exists s m,
    ns_state (w_store w1) "id1" = Some s /\ ns_meta (w_store w1) "id1" = Some m /\
    im_status m = "in_progress" /\
    Visits (dict_update (es_bag s) [("validate", VStr "maybe")])
      ValidateRequest ValidateRequest /\
    step_key ValidateRequest = Some "validate" /\
    dict_mem "validate" (dict_update (es_bag s) [("validate", VStr "maybe")]) = true /\
    route_on_bag ValidateRequest
      (dict_update (es_bag s) [("validate", VStr "maybe")]) = None /\
    exists w' m' e1 e2,
      resume "id1" "u2" [("validate", VStr "maybe")] w1 =
        (inr (SumInProgress (node_name ValidateRequest) "id1"), w') /\
      ns_meta (w_store w') "id1" = Some m' /\ im_status m' = "in_progress" /\
      history (w_store w') "id1" = (history (w_store w1) "id1" ++ [e1; e2])%list /\
      ev_event e2 = "progressed".
Proof.
  split; [exact reach_w1|].
  destruct (ns_state (w_store w1) "id1") as [s|] eqn:Es;
    [|vm_compute in Es; discriminate].
  destruct (ns_meta (w_store w1) "id1") as [m|] eqn:Em;
    [|vm_compute in Em; discriminate].
  assert (Es' := Es); vm_compute in Es'; inversion Es'; subst s; clear Es'.
  assert (Em' := Em); vm_compute in Em'; inversion Em'; subst m; clear Em'.
  eexists; eexists.
  split; [reflexivity|]. split; [reflexivity|].
  split; [reflexivity|]. split; [apply visits_here|].
  split; [reflexivity|]. split; [vm_compute; reflexivity|].
  split; [vm_compute; reflexivity|].
  exact (C4_unmatched_guard_stalls w1 "id1" "u2" [("validate", VStr "maybe")]
           _ _ ValidateRequest "validate" reach_w1 Es Em eq_refl
           (visits_here _ _) eq_refl ltac:(vm_compute; reflexivity)
           ltac:(vm_compute; reflexivity)).
Defined.

(** C5: [resume] of an instance id with no stored execution state fails with
    [NotFound] and leaves the whole store (and the clock) as it was. *)
Theorem C5_resume_unknown iid a u w :
  ns_state (w_store w) iid = None ->
  resume iid a u w = (inl (NotFound iid), w).
Proof. apply resume_none. Qed.

Lemma C5_witness :
  ns_state (w_store w_init) "unknown-id" = None /\
  resume "unknown-id" "u" [] w_init = (inl (NotFound "unknown-id"), w_init).
Proof.
  split; [reflexivity|].
  exact (C5_resume_unknown "unknown-id" "u" [] w_init eq_refl).
Defined.

(** C6 (amended): whenever [claim_details] is in the bag, [Gather Claim Info]
    returns without pausing, and its guard selects [Identify Accounts &
    Process Decision] exactly when the value is truthy; a falsy value
    (["" ], [None], [0], an empty list or dict) routes to [END]. *)
Theorem C6_gather_route s c o s' c' v :
  node_fn GatherClaimInfo s c = (o, s', c') ->
  dict_get "claim_details" (es_bag s) = Some v ->
  o = Ret /\
  route GatherClaimInfo s' = if truthy v then Some IdentifyAccounts else None.
Proof.
  intros H Hv; apply node_fn_spec in H as (Eb & _ & Eo & _).
  cbn in Eb. split.
  - rewrite Eo; unfold step_out, dict_mem; cbn; rewrite Hv; reflexivity.
  - unfold route; rewrite Eb, Hv; reflexivity.
Qed.

Lemma C6_witness :
  node_fn GatherClaimInfo (gather_state (VStr "x")) test_clock =
    (fst (fst gather_x_out), snd (fst gather_x_out), snd gather_x_out) /\
  dict_get "claim_details" (es_bag (gather_state (VStr "x"))) = Some (VStr "x") /\
  fst (fst gather_x_out) = Ret /\
  route GatherClaimInfo (snd (fst gather_x_out)) = Some IdentifyAccounts.
Proof.
  assert (H : node_fn GatherClaimInfo (gather_state (VStr "x")) test_clock =
    (fst (fst gather_x_out), snd (fst gather_x_out), snd gather_x_out))
    by (unfold gather_x_out; rewrite <- !surjective_pairing; reflexivity).
  split; [exact H|]. split; [reflexivity|].
  exact (C6_gather_route _ _ _ _ _ (VStr "x") H eq_refl).
Defined.

(** C6 fails as stated: with [claim_details = ""] the step returns without
    pausing but the guard routes to [END]. *)
Lemma C6_counterexample :
  ~ (forall s c s' c',
       node_fn GatherClaimInfo s c = (Ret, s', c') ->
       route GatherClaimInfo s' = Some IdentifyAccounts).
Proof.
  intros H.
  pose proof (H (gather_state (VStr "")) test_clock
                (snd (fst (node_fn GatherClaimInfo (gather_state (VStr "")) test_clock)))
                (snd (node_fn GatherClaimInfo (gather_state (VStr "")) test_clock))
                ltac:(vm_compute; reflexivity)) as R.
  vm_compute in R; discriminate.
Qed.

(** C7: the cancel scenario, for any store, clock, instance id and workflow
    name: [start] pauses at validation, the three resumes pause for the claim
    details, then for the decision, and the cancel decision ends the run
    [aborted] at [Cancel CWD Request] with result ["Workflow aborted."]. *)
Theorem C7_cancel_scenario wf iid w :
  exists w1', start wf iid "C1" "u1" w =
    (inr (iid, SumPaused "Validate request? (yes/no)" iid), w1') /\
  exists w2', resume iid "u2" [("validate", VStr "yes")] w1' =
    (inr (SumPaused "Provide claim details" iid), w2') /\
  exists w3', resume iid "u3" [("claim_details", VStr "x")] w2' =
    (inr (SumPaused "Decision? cancel / hold / suppress" iid), w3') /\
  exists w4', resume iid "u4" [("process_decision", VStr "cancel")] w3' =
    (inr (SumAborted "Cancel CWD Request" (VStr "Workflow aborted.") iid), w4').
Proof.
  destruct (start_spec wf iid "C1" "u1" w) as
    (t & c0 & ir & s1 & c1 & w1' & m1 & e1 & e2 & Hinv & Hst & Hs & _ & _ & _ &
     Hm & _ & Hid & _).
  vm_compute in Hinv. inversion Hinv; subst ir s1; clear Hinv.
  assert (Hs1 := Hs iid); rewrite upd_same in Hs1; clear Hs. eval_some Hs1.
  exists w1'; split; [rewrite Hst; vm_compute; reflexivity|].
  resume_step Hs1 Hm Hid.
  resume_step Hs1 Hm Hid.
  resume_step Hs1 Hm Hid.
Qed.

(** C8: in every reachable store the step history of every instance has no
    two consecutive entries with the same node, and every start or resume
    call only appends to the step history of every instance. *)
Theorem C8_history_append_only w :
  Reachable w ->
  (forall k m, ns_meta (w_store w) k = Some m -> no_consec_dup (history_nodes m)) /\
  (forall cl r w' k m,
     call_ok cl w -> exec_call cl w = (r, w') -> ns_meta (w_store w) k = Some m ->
     exists m' ext, ns_meta (w_store w') k = Some m' /\
                    im_steps_history m' = (im_steps_history m ++ ext)%list).
Proof.
  intros HR; split.
  - intros k m Hm.
    destruct (Reachable_Inv w HR k) as [[_ Hn]|(s & m0 & _ & Hm0 & _ & _ & Hnc)];
      [congruence|].
    rewrite Hm in Hm0; inversion Hm0; subst; exact Hnc.
  - intros cl r w' k m Hok Hx Hm.
    destruct (exec_call_spec cl w r w' (Reachable_Inv w HR) Hok Hx) as
      [(_ & -> & _)|(s0 & c0 & ir & s1 & c1 & m' & e1 & e2 & _ & _ & _ & _ &
                     _ & _ & Hm' & Ho & _ & _ & _ & H0 & _)].
    + exists m, []; rewrite app_nil_r; auto.
    + destruct (String.eqb_spec k (call_id cl)) as [->|Hk].
      * destruct (H0 m Hm) as ([[ext He] _] & _).
        exists m', ext; auto.
      * exists m, []; rewrite app_nil_r, Ho by exact Hk; auto.
Qed.

Lemma C8_witness :
  Reachable w3 /\ ns_meta (w_store w3) "id1" = Some meta_w3 /\
  List.length (im_steps_history meta_w3) = 3 /\
  no_consec_dup (history_nodes meta_w3) /\
  exists m' ext, ns_meta (w_store w4) "id1" = Some m' /\
                 im_steps_history m' = (im_steps_history meta_w3 ++ ext)%list.
Proof.
  assert (Hm : ns_meta (w_store w3) "id1" = Some meta_w3) by (vm_compute; reflexivity).
  destruct (C8_history_append_only w3 reach_w3) as [ND App].
  split; [exact reach_w3|]. split; [exact Hm|]. split; [reflexivity|].
  split; [exact (ND "id1" meta_w3 Hm)|].
  exact (App call4 _ w4 "id1" meta_w3 I exec_call4 Hm).
Defined.

(** C9 (amended): [list_instances] returns the metadata of the indexed
    instances that pass every filter that is given and not empty (an empty
    filter string is ignored), sorted by descending timestamp of the last
    step-history entry; an instance with no history comes after every
    instance whose last entry has a non-empty timestamp. *)
Theorem C9_list_instances st cust status sb wf :
  let out := list_instances st cust status sb wf in
  (forall m, In m out <->
     exists iid, In iid (match ns_index st "instances" with
                         | Some l => l | None => [] end) /\
       ns_meta st iid = Some m /\ keeps_prop cust status sb wf m) /\
  StronglySorted desc_ok out /\
  (forall l1 x l2 y, out = (l1 ++ x :: l2)%list -> In y l2 ->
     im_steps_history x = [] -> history_key y = "").
Proof.
  cbv zeta; unfold list_instances.
  set (ids := match ns_index st "instances" with Some l => l | None => [] end).
  destruct (sort_desc_spec (collect st cust status sb wf ids)) as [S P].
  split; [|split; [exact S|]].
  - intros m; rewrite <- collect_spec; split; intros H.
    + exact (Permutation_in _ P H).
    + exact (Permutation_in _ (Permutation_sym P) H).
  - intros l1 x l2 y E Hy Hx.
    rewrite E in S; apply StronglySorted_app_r in S.
    inversion S as [|? ? _ F]; subst.
    rewrite Forall_forall in F; specialize (F y Hy).
    unfold desc_ok, history_key in F; rewrite Hx in F; cbn in F.
    exact (ltb_empty_false _ F).
Qed.

(** C9 fails as stated: the filter [customer_id = ""] is not applied. *)
Lemma C9_counterexample :
  ~ (forall st cust status sb wf m,
       In m (list_instances st cust status sb wf) ->
       forall v, cust = Some v -> im_customer_id m = v).
Proof.
  intros H.
  destruct (list_instances (w_store w1) (Some "") None None None) as [|m l] eqn:E;
    [vm_compute in E; discriminate|].
  pose proof (H _ _ _ _ _ m ltac:(rewrite E; left; reflexivity) "" eq_refl) as R.
  vm_compute in E; inversion E; subst; discriminate.
Qed.

(** C10: on a reachable store, every start call appends exactly a [created]
    event and one outcome event ([paused], [progressed], [completed] or
    [aborted]) to the instance's log, and every successful resume exactly a
    [resume_command] event and one outcome event. *)
Theorem C10_two_events_per_call w :
  Reachable w ->
  (forall wf iid cust sb r w',
     start wf iid cust sb w = (inr r, w') ->
     exists e1 e2, history (w_store w') iid = (history (w_store w) iid ++ [e1; e2])%list /\
       ev_event e1 = "created" /\ In (ev_event e2) outcome_kinds) /\
  (forall iid a u r w',
     resume iid a u w = (inr r, w') ->
     exists e1 e2, history (w_store w') iid = (history (w_store w) iid ++ [e1; e2])%list /\
       ev_event e1 = "resume_command" /\ In (ev_event e2) outcome_kinds).
Proof.
  intros HR; split.
  - intros wf iid cust sb r w' Hx.
    destruct (start_spec wf iid cust sb w) as
      (t & c0 & ir & s1 & c1 & w1' & m' & e1 & e2 & _ & Hst & _ & Hh & He1 & He2 & _).
    rewrite Hst in Hx; inversion Hx; subst w'.
    exists e1, e2; split; [exact Hh|]. split; [exact He1|].
    rewrite He2; apply run_event_in.
  - intros iid a u r w' Hx.
    destruct (ns_state (w_store w) iid) as [s|] eqn:Es;
      [|rewrite resume_none in Hx by exact Es; discriminate].
    destruct (Reachable_Inv w HR iid) as [[Hn _]|(s' & m0 & Hs' & Hm0 & Hid & _)];
      [congruence|].
    rewrite Es in Hs'; inversion Hs'; subst s'; clear Hs'.
    destruct (resume_spec iid a u w s m0 Es Hm0 Hid) as
      (c0 & ir & s1 & c1 & w1' & m' & e1 & e2 & _ & Hr & _ & Hh & He1 & He2 & _).
    rewrite Hr in Hx; inversion Hx; subst w'.
    exists e1, e2; split; [exact Hh|]. split; [exact He1|].
    rewrite He2; apply run_event_in.
Qed.

Lemma C10_witness :
  Reachable w1 /\ ns_state (w_store w1) "id1" <> None /\
  (exists e1 e2,
     history (w_store (snd (start "ClaimWorkflow" "id2" "C2" "u9" w1))) "id2" =
       (history (w_store w1) "id2" ++ [e1; e2])%list /\
     ev_event e1 = "created" /\ In (ev_event e2) outcome_kinds) /\
  (exists e1 e2,
     history (w_store w2) "id1" = (history (w_store w1) "id1" ++ [e1; e2])%list /\
     ev_event e1 = "resume_command" /\ In (ev_event e2) outcome_kinds).
Proof.
  assert (Hs : ns_state (w_store w1) "id1" <> None)
    by (vm_compute; discriminate).
  assert (Hst : start "ClaimWorkflow" "id2" "C2" "u9" w1 =
                (inr ("id2", SumPaused "Validate request? (yes/no)" "id2"),
                 snd (start "ClaimWorkflow" "id2" "C2" "u9" w1))).
  { assert (F : fst (start "ClaimWorkflow" "id2" "C2" "u9" w1) =
                inr ("id2", SumPaused "Validate request? (yes/no)" "id2"))
      by (vm_compute; reflexivity).
    rewrite <- F; apply surjective_pairing. }
  assert (Hr : resume "id1" "u2" [("validate", VStr "yes")] w1 =
               (inr (SumPaused "Provide claim details" "id1"), w2)).
  { assert (F : fst (resume "id1" "u2" [("validate", VStr "yes")] w1) =
                inr (SumPaused "Provide claim details" "id1"))
      by (vm_compute; reflexivity).
    unfold w2, call2, exec_call; rewrite <- F; apply surjective_pairing. }
  destruct (C10_two_events_per_call w1 reach_w1) as [S R].
  split; [exact reach_w1|]. split; [exact Hs|].
  split; [exact (S _ _ _ _ _ _ Hst)|].
  exact (R _ _ _ _ _ Hr).
Defined.

(* ================================================================== *)
(** ** Further properties of the engine, the API and the UI *)

(** X1. When the store holds no metadata for the instance, or its
    [last_node] is not one of ["Gather Claim Info"] and ["Validate Request"],
    [provide_human_input] answers with an HTTP error, 404 for a missing
    instance and 400 otherwise, without calling [resume] and without touching
    the store or the clock. *)
Theorem provide_human_input_rejects iid si w :
  (forall m, get_meta_q (w_store w) iid = Some m -> in_allowed (im_last_node m) = false) ->
  exists e, provide_human_input iid si w = (inr (inl e), w) /\
    status_code e = match get_meta_q (w_store w) iid with None => 404 | Some _ => 400 end.
Proof.
  intros H; unfold provide_human_input, get_meta, bind at 1 2; cbn.
  unfold get_meta_q in *.
  destruct (ns_meta (w_store w) iid) as [m|]; [|eexists; split; reflexivity].
  rewrite (H m eq_refl); cbn. eexists; split; reflexivity.
Qed.

Lemma provide_human_input_rejects_witness :
  (forall m, get_meta_q (w_store w3) "id1" = Some m -> in_allowed (im_last_node m) = false) /\
  exists e, provide_human_input "id1" (mkStepInput "u" []) w3 = (inr (inl e), w3) /\
    status_code e = match get_meta_q (w_store w3) "id1" with None => 404 | Some _ => 400 end.
Proof.
  assert (H : forall m, get_meta_q (w_store w3) "id1" = Some m ->
                        in_allowed (im_last_node m) = false)
    by (intros m Hm; vm_compute in Hm; inversion Hm; reflexivity).
  split; [exact H|]. exact (provide_human_input_rejects "id1" (mkStepInput "u" []) w3 H).
Defined.

(** X2. In every reachable world [provide_human_input] raises no engine
    error. It resumes the instance exactly when metadata exists and its
    [last_node] is an allowed step; then the response carries the instance id
    and [resume]'s own summary, and the world is the one [resume] leaves.
    Otherwise the world is unchanged. *)
Theorem provide_human_input_resumes w iid si :
  Reachable w ->
  exists v w', provide_human_input iid si w = (inr v, w') /\
    ((exists resp, v = inr resp) <->
     exists m, get_meta_q (w_store w) iid = Some m /\ in_allowed (im_last_node m) = true) /\
    match v with
    | inl _ => w' = w
    | inr resp => resp_instance_id resp = iid /\
        resume iid (si_actor si) (si_updates si) w = (inr (resp_result resp), w')
    end.
Proof.
  intros HR.
  unfold provide_human_input; rewrite bind_get_meta. unfold get_meta_q.
  destruct (ns_meta (w_store w) iid) as [m|] eqn:Em; cbn [negb].
  2:{ eexists; eexists; split; [reflexivity|]. split; [|reflexivity].
      split; [intros [? H]; discriminate | intros (m & H & _); discriminate]. }
  destruct (in_allowed (im_last_node m)) eqn:Ea; cbn [negb].
  2:{ eexists; eexists; split; [reflexivity|]. split; [|reflexivity].
      split; [intros [? H]; discriminate|intros (m' & H & A); inversion H; congruence]. }
  destruct (Reachable_Inv w HR iid) as [[_ Hn]|(s & m0 & Hs & Hm0 & Hid & _)]; [congruence|].
  rewrite Em in Hm0; inversion Hm0; subst m0; clear Hm0.
  destruct (resume_spec iid (si_actor si) (si_updates si) w s m Hs Em Hid) as
    (c0 & ir & s1 & c1 & w' & m' & e1 & e2 & _ & Hr & _).
  unfold bind at 1; rewrite Hr.
  eexists; eexists; split; [reflexivity|]. split.
  - split; [intros _; exists m; auto | intros _; eexists; reflexivity].
  - split; reflexivity.
Qed.

Lemma provide_human_input_resumes_witness :
  Reachable w1 /\
  exists v w', provide_human_input "id1" (mkStepInput "u2" [("validate", VStr "yes")]) w1 =
      (inr v, w') /\
    ((exists resp, v = inr resp) <->
     exists m, get_meta_q (w_store w1) "id1" = Some m /\ in_allowed (im_last_node m) = true) /\
    match v with
    | inl _ => w' = w1
    | inr resp => resp_instance_id resp = "id1" /\
        resume "id1" "u2" [("validate", VStr "yes")] w1 = (inr (resp_result resp), w')
    end.
Proof.
  split; [exact reach_w1|].
  exact (provide_human_input_resumes w1 "id1" (mkStepInput "u2" [("validate", VStr "yes")]) reach_w1).
Defined.

(** X3. In every reachable world [list_instances(status="paused")] is
    empty, so the [pending-human] endpoint always returns an empty list. *)
Theorem pending_human_steps_empty w :
  Reachable w ->
  list_instances (w_store w) None (Some "paused") None None = [] /\
  pending_human_steps (w_store w) = [].
Proof.
  intros HR.
  assert (E : list_instances (w_store w) None (Some "paused") None None = []).
  { unfold list_instances.
    destruct (sort_desc_spec (collect (w_store w) None (Some "paused") None None
               (match ns_index (w_store w) "instances" with Some l => l | None => [] end)))
      as [_ P].
    destruct (sort_desc _) as [|m l] eqn:S; [reflexivity|exfalso].
    assert (Hin : In m (collect (w_store w) None (Some "paused") None None
               (match ns_index (w_store w) "instances" with Some l => l | None => [] end)))
      by (apply (Permutation_in _ P); left; reflexivity).
    apply collect_spec in Hin as (k & _ & Hm & _ & _ & Hst & _).
    specialize (Hst "paused" eq_refl ltac:(discriminate)).
    destruct (Reachable_Inv w HR k) as [[_ Hn]|(s & m0 & Hs & Hm0 & _ & Hss & _)];
      [congruence|].
    rewrite Hm in Hm0; inversion Hm0; subst m0.
    pose proof (Reachable_known w HR k s Hs) as K.
    rewrite Hss, Hst in K; discriminate. }
  split; [exact E|]. unfold pending_human_steps; rewrite E; reflexivity.
Qed.

Lemma pending_human_steps_empty_witness :
  Reachable w1 /\
  list_instances (w_store w1) None (Some "paused") None None = [] /\
  pending_human_steps (w_store w1) = [].
Proof. split; [exact reach_w1|]. exact (pending_human_steps_empty w1 reach_w1). Defined.

(** X4. In every reachable world the index ["instances"] holds no
    duplicate, and an id is in it exactly when metadata is stored under that
    id. *)
Theorem index_matches_meta w :
  Reachable w ->
  NoDup (index_of (w_store w)) /\
  (forall k, In k (index_of (w_store w)) <-> ns_meta (w_store w) k <> None).
Proof. intros HR; exact (Reachable_index w HR). Qed.

Lemma index_matches_meta_witness :
  Reachable w4 /\
  NoDup (index_of (w_store w4)) /\
  (forall k, In k (index_of (w_store w4)) <-> ns_meta (w_store w4) k <> None).
Proof. split; [exact reach_w4|]. exact (index_matches_meta w4 reach_w4). Defined.

(** X5. In every reachable world [list_instances()] without filters
    returns each stored metadata record once: no instance id occurs twice,
    and a record is listed exactly when it is stored under some id. *)
Theorem list_instances_all w :
  Reachable w ->
  let out := list_instances (w_store w) None None None None in
  NoDup (map im_instance_id out) /\
  (forall m, In m out <-> exists k, ns_meta (w_store w) k = Some m).
Proof.
  intros HR; cbv zeta. destruct (Reachable_index w HR) as [ND Mem].
  assert (Hid : forall k m, ns_meta (w_store w) k = Some m -> im_instance_id m = k).
  { intros k m Hm.
    destruct (Reachable_Inv w HR k) as [[_ Hn]|(s & m0 & _ & Hm0 & Hid & _)]; [congruence|].
    rewrite Hm in Hm0; inversion Hm0; subst m0; exact Hid. }
  unfold list_instances; fold (index_of (w_store w)).
  destruct (sort_desc_spec (collect (w_store w) None None None None (index_of (w_store w))))
    as [_ P].
  split.
  - eapply Permutation_NoDup; [apply Permutation_map, Permutation_sym, P|].
    apply collect_ids_nodup; assumption.
  - intros m; split.
    + intros H; apply (Permutation_in _ P), collect_spec in H as (k & _ & Hm & _).
      exists k; exact Hm.
    + intros (k & Hm). apply (Permutation_in _ (Permutation_sym P)), collect_spec.
      exists k; split; [apply Mem; congruence|]. split; [exact Hm|].
      repeat split; intros v Hv; discriminate.
Qed.

Lemma list_instances_all_witness :
  Reachable w4 /\
  let out := list_instances (w_store w4) None None None None in
  NoDup (map im_instance_id out) /\
  (forall m, In m out <-> exists k, ns_meta (w_store w4) k = Some m).
Proof. split; [exact reach_w4|]. exact (list_instances_all w4 reach_w4). Defined.

(** X6. A start or resume call only appends to event logs, and it
    appends to no log but the one of its own instance. *)
Theorem call_log_frame w cl r w' :
  Reachable w -> call_ok cl w -> exec_call cl w = (r, w') ->
  forall k, exists ext,
    history (w_store w') k = (history (w_store w) k ++ ext)%list /\
    (k <> call_id cl -> ext = []).
Proof.
  intros HR Hok Hx k. pose proof (Reachable_Inv w HR) as HI.
  destruct (exec_call_more cl w r w' HI Hok Hx) as [(_ & ->)|M];
    [exists []; rewrite app_nil_r; auto|].
  destruct (exec_call_spec cl w r w' HI Hok Hx) as
    [(_ & -> & _)|(s0 & c0 & ir & s1 & c1 & m' & e1 & e2 & _ & _ & _ & Hh & _)];
    [exists []; rewrite app_nil_r; auto|].
  destruct M as (m0 & s1' & c2 & c3 & x & _ & _ & _ & _ & Hev).
  destruct (String.eqb_spec k (call_id cl)) as [->|Hk].
  - exists [e1; e2]; split; [exact Hh | intros H; contradiction].
  - exists []; rewrite app_nil_r; split; [|reflexivity].
    apply history_eq, Hev; exact Hk.
Qed.

Lemma call_log_frame_witness :
  Reachable w3 /\ call_ok call4 w3 /\
  exec_call call4 w3 =
    (inr (SumAborted "Cancel CWD Request" (VStr "Workflow aborted.") "id1"), w4) /\
  forall k, exists ext,
    history (w_store w4) k = (history (w_store w3) k ++ ext)%list /\
    (k <> call_id call4 -> ext = []).
Proof.
  split; [exact reach_w3|]. split; [exact I|]. split; [exact exec_call4|].
  exact (call_log_frame w3 call4 _ w4 reach_w3 I exec_call4).
Defined.

(** X7. In every reachable world an instance either has no state, no
    metadata and an empty log, or it has state and metadata and its log is a
    [created] event and an outcome event, then pairs of a [resume_command]
    event and an outcome event. *)
Theorem event_log_shape w :
  Reachable w ->
  forall k,
    (ns_state (w_store w) k = None /\ ns_meta (w_store w) k = None /\
     history (w_store w) k = []) \/
    (ns_state (w_store w) k <> None /\ ns_meta (w_store w) k <> None /\
     exists e1 e2 rest, history (w_store w) k = e1 :: e2 :: rest /\
       ev_event e1 = "created" /\ In (ev_event e2) outcome_kinds /\ pairs_ok rest).
Proof.
  intros HR k.
  destruct (Reachable_log w HR k) as [[Hs Hh]|[Hs L]];
    destruct (Reachable_Inv w HR k) as [[Hs' Hm]|(s & m & Hs' & Hm & _)];
    try congruence.
  - left; auto.
  - right; split; [exact Hs|]. split; [congruence|]. exact L.
Qed.

Lemma event_log_shape_witness :
  Reachable w4 /\
  forall k,
    (ns_state (w_store w4) k = None /\ ns_meta (w_store w4) k = None /\
     history (w_store w4) k = []) \/
    (ns_state (w_store w4) k <> None /\ ns_meta (w_store w4) k <> None /\
     exists e1 e2 rest, history (w_store w4) k = e1 :: e2 :: rest /\
       ev_event e1 = "created" /\ In (ev_event e2) outcome_kinds /\ pairs_ok rest).
Proof. split; [exact reach_w4|]. exact (event_log_shape w4 reach_w4). Defined.

(** X8. After a successful start or resume call, the stored metadata
    names the call's actor as [last_actor] and the stored state's
    [last_node] as its own, and its step history is the previous one
    extended by at most one entry, which names that node and that actor. *)
Theorem call_meta_audit w cl r w' :
  Reachable w -> call_ok cl w -> exec_call cl w = (inr r, w') ->
  exists m' s',
    ns_meta (w_store w') (call_id cl) = Some m' /\
    ns_state (w_store w') (call_id cl) = Some s' /\
    im_last_actor m' = Some (call_actor cl) /\
    im_last_node m' = sm_last_node (es_meta s') /\
    exists ext,
      im_steps_history m' = (prior_history (w_store w) (call_id cl) ++ ext)%list /\
      length ext <= 1 /\
      Forall (fun e => Some (se_node e) = sm_last_node (es_meta s') /\
                       se_actor e = call_actor cl) ext.
Proof.
  intros HR Hok Hx. pose proof (Reachable_Inv w HR) as HI.
  destruct (exec_call_more cl w _ w' HI Hok Hx) as [(H & _)|M]; [discriminate|].
  destruct M as (m0 & s1 & c2 & c3 & x & Hc & Hs & [n Hn] & Hm & _).
  eexists; exists s1. split; [exact Hm|]. split; [exact Hs|].
  split; [apply meta_step_actor|].
  split; [rewrite (call_meta_last_node _ _ _ _ _ _ n Hn), Hn; reflexivity|].
  destruct (call_meta_hist (call_actor cl) s1 m0 c2 c3 x) as (ext & He & Hl & F).
  exists ext. split.
  - rewrite He; unfold prior_history.
    destruct cl as [wf iid cust sb | iid a u]; cbn [call_id] in *.
    + destruct Hok as [_ Hn0]; rewrite Hn0. destruct Hc as [[t ->] _]; reflexivity.
    + destruct Hc as [Hm0 _]; rewrite Hm0; reflexivity.
  - split; [exact Hl|]. eapply Forall_impl; [|exact F].
    intros e [E1 E2]; split; [|exact E2].
    rewrite E1; unfold entry_node; rewrite Hn; reflexivity.
Qed.

Lemma call_meta_audit_witness :
  Reachable w3 /\ call_ok call4 w3 /\
  exec_call call4 w3 =
    (inr (SumAborted "Cancel CWD Request" (VStr "Workflow aborted.") "id1"), w4) /\
  exists m' s',
    ns_meta (w_store w4) (call_id call4) = Some m' /\
    ns_state (w_store w4) (call_id call4) = Some s' /\
    im_last_actor m' = Some (call_actor call4) /\
    im_last_node m' = sm_last_node (es_meta s') /\
    exists ext,
      im_steps_history m' = (prior_history (w_store w3) (call_id call4) ++ ext)%list /\
      length ext <= 1 /\
      Forall (fun e => Some (se_node e) = sm_last_node (es_meta s') /\
                       se_actor e = call_actor call4) ext.
Proof.
  split; [exact reach_w3|]. split; [exact I|]. split; [exact exec_call4|].
  exact (call_meta_audit w3 call4 _ w4 reach_w3 I exec_call4).
Defined.

(** X9. A successful call stores metadata whose instance id, customer
    id, workflow name and [started_by] are the ones [start] was given; a
    resume keeps them as they were, and keeps a [start_time] already set. *)
Theorem call_meta_identity w cl r w' :
  Reachable w -> call_ok cl w -> exec_call cl w = (inr r, w') ->
  exists m', ns_meta (w_store w') (call_id cl) = Some m' /\
  match cl with
  | CallStart wf iid cust sb => meta_ident m' = (iid, cust, wf, sb)
  | CallResume iid _ _ =>
      forall m0, ns_meta (w_store w) iid = Some m0 ->
        meta_ident m' = meta_ident m0 /\
        (truthy_opt (im_start_time m0) = true -> im_start_time m' = im_start_time m0)
  end.
Proof.
  intros HR Hok Hx. pose proof (Reachable_Inv w HR) as HI.
  destruct (exec_call_more cl w _ w' HI Hok Hx) as [(H & _)|M]; [discriminate|].
  destruct M as (m0 & s1 & c2 & c3 & x & Hc & _ & _ & Hm & _).
  eexists; split; [exact Hm|].
  rewrite meta_step_ident, set_status_ident, meta_step_ident.
  destruct cl as [wf iid cust sb | iid a u]; cbn [call_id call_actor] in *.
  - destruct Hc as [[t ->] _]; reflexivity.
  - destruct Hc as [Hm0 _]; intros m1 Hm1; rewrite Hm0 in Hm1; inversion Hm1; subst m1.
    split; [reflexivity|]. intros T.
    assert (T1 : im_start_time (fst (meta_step a s1 m0 c2)) = im_start_time m0)
      by (apply meta_step_start_time; exact T).
    rewrite meta_step_start_time; cbn [im_start_time im_set_status];
      [exact T1 | rewrite T1; exact T].
Qed.

Lemma call_meta_identity_witness :
  Reachable w3 /\ call_ok call4 w3 /\
  exec_call call4 w3 =
    (inr (SumAborted "Cancel CWD Request" (VStr "Workflow aborted.") "id1"), w4) /\
  exists m', ns_meta (w_store w4) "id1" = Some m' /\
    forall m0, ns_meta (w_store w3) "id1" = Some m0 ->
      meta_ident m' = meta_ident m0 /\
      (truthy_opt (im_start_time m0) = true -> im_start_time m' = im_start_time m0).
Proof.
  split; [exact reach_w3|]. split; [exact I|]. split; [exact exec_call4|].
  exact (call_meta_identity w3 call4 _ w4 reach_w3 I exec_call4).
Defined.

(** X10. The summary a successful call returns names the call's
    instance, and a completed, aborted or in-progress summary agrees with the
    status stored in the instance's metadata. *)
Theorem summary_status_stored w cl r w' :
  Reachable w -> call_ok cl w -> exec_call cl w = (inr r, w') ->
  exists m', ns_meta (w_store w') (call_id cl) = Some m' /\
  match r with
  | SumCompleted _ _ i => i = call_id cl /\ im_status m' = "completed"
  | SumAborted _ _ i => i = call_id cl /\ im_status m' = "aborted"
  | SumInProgress _ i => i = call_id cl /\ im_status m' = "in_progress"
  | SumPaused _ i => i = call_id cl
  end.
Proof.
  intros HR Hok Hx. pose proof (Reachable_Inv w HR) as HI.
  destruct (exec_call_spec cl w _ w' HI Hok Hx) as
    [(H & _)|(s0 & c0 & ir & s1 & c1 & m' & e1 & e2 & _ & Hr & Hs & _ & _ & _ & Hm &
              _ & _ & Hss & _)]; [discriminate|].
  exists m'; split; [exact Hm|].
  pose proof (Reachable_known w' (reach_call w cl _ w' HR Hok Hx) (call_id cl)
                (default_last_node s1) ltac:(rewrite Hs; apply upd_same)) as K.
  rewrite Hss in K; unfold status_known in K.
  injection Hr as ->. unfold run_summary; rewrite Hss.
  destruct ir; [reflexivity| |];
    (destruct (String.eqb_spec (im_status m') "completed") as [E|E];
     [split; [reflexivity|exact E]|];
     destruct (String.eqb_spec (im_status m') "aborted") as [E'|E'];
     [split; [reflexivity|exact E']|];
     split; [reflexivity|];
     destruct (String.eqb_spec (im_status m') "in_progress"); [assumption|];
     apply String.eqb_neq in E, E', n; rewrite ?E, ?E', ?n in K; discriminate).
Qed.

Lemma summary_status_stored_witness :
  Reachable w3 /\ call_ok call4 w3 /\
  exec_call call4 w3 =
    (inr (SumAborted "Cancel CWD Request" (VStr "Workflow aborted.") "id1"), w4) /\
  exists m', ns_meta (w_store w4) "id1" = Some m' /\
    "id1" = call_id call4 /\ im_status m' = "aborted".
Proof.
  split; [exact reach_w3|]. split; [exact I|]. split; [exact exec_call4|].
  exact (summary_status_stored w3 call4 _ w4 reach_w3 I exec_call4).
Defined.

(** X11. In a reachable world a start or resume call either
    succeeds, or it is a resume of an id without stored state, which fails
    with [NotFound] and leaves the world as it was. *)
Theorem call_total w cl :
  Reachable w -> call_ok cl w ->
  (exists r w', exec_call cl w = (inr r, w')) \/
  (exec_call cl w = (inl (NotFound (call_id cl)), w) /\
   ns_state (w_store w) (call_id cl) = None).
Proof.
  intros HR Hok. pose proof (Reachable_Inv w HR) as HI.
  destruct (exec_call cl w) as [r w'] eqn:Hx.
  destruct (exec_call_spec cl w r w' HI Hok Hx) as
    [(-> & -> & Hn)|(s0 & c0 & ir & s1 & c1 & m' & e1 & e2 & _ & -> & _)].
  - right; auto.
  - left; eauto.
Qed.

Lemma call_total_witness :
  Reachable w3 /\ call_ok call4 w3 /\
  ((exists r w', exec_call call4 w3 = (inr r, w')) \/
   (exec_call call4 w3 = (inl (NotFound (call_id call4)), w3) /\
    ns_state (w_store w3) (call_id call4) = None)).
Proof.
  split; [exact reach_w3|]. split; [exact I|].
  exact (call_total w3 call4 reach_w3 I).
Defined.

(** X12. For every metadata record of a reachable world the listing
    of [ui.py] needs no default [last_node], and [workflow_mermaid] styles one
    visited node per step-history entry and then the current one, which is
    the record's [last_node] and always a node of the diagram. *)
Theorem diagram_styles_reachable w k m :
  Reachable w -> ns_meta (w_store w) k = Some m ->
  listing_meta m = m /\
  exists n i vis,
    im_last_node m = Some (node_name n) /\ lookup_id (node_name n) node_ids = Some i /\
    mermaid_styles (listing_meta m) = (vis ++ [current_style i])%list /\
    List.length vis = List.length (im_steps_history m) /\
    Forall (fun v => exists j, v = visited_style j) vis.
Proof.
  intros HR Hm.
  destruct (Reachable_nodes w HR k m Hm) as [[n Hn] F].
  assert (L : listing_meta m = m)
    by (unfold listing_meta; rewrite Hn, truthy_opt_node; reflexivity).
  split; [exact L|]. rewrite L.
  destruct (lookup_node n) as [i Hi].
  exists n, i, (visited_styles (im_steps_history m)).
  split; [exact Hn|]. split; [exact Hi|].
  unfold mermaid_styles, current_node. rewrite Hn, truthy_opt_node, Hi.
  split; [reflexivity|]. exact (visited_styles_nodes _ F).
Qed.

Lemma diagram_styles_reachable_witness :
  Reachable w4 /\ ns_meta (w_store w4) "id1" = Some meta_w4 /\
  listing_meta meta_w4 = meta_w4 /\
  exists n i vis,
    im_last_node meta_w4 = Some (node_name n) /\
    lookup_id (node_name n) node_ids = Some i /\
    mermaid_styles (listing_meta meta_w4) = (vis ++ [current_style i])%list /\
    List.length vis = List.length (im_steps_history meta_w4) /\
    Forall (fun v => exists j, v = visited_style j) vis.
Proof.
  assert (H : ns_meta (w_store w4) "id1" = Some meta_w4) by (vm_compute; reflexivity).
  split; [exact reach_w4|]. split; [exact H|].
  exact (diagram_styles_reachable w4 "id1" meta_w4 reach_w4 H).
Defined.

(** X13. [_update_meta_from_state] is idempotent: a second update
    from the same execution state returns the same metadata, adds no
    step-history entry, leaves the clock and leaves every namespace as the
    first update left it. *)
Theorem update_meta_idempotent iid a s w m :
  ns_meta (w_store w) iid = Some m -> im_instance_id m = iid ->
  exists m1 w1 w2,
    update_meta_from_state iid a s w = (inr m1, w1) /\
    ns_meta (w_store w1) iid = Some m1 /\
    update_meta_from_state iid a s w1 = (inr m1, w2) /\
    w_clock w2 = w_clock w1 /\
    (forall k, ns_meta (w_store w2) k = ns_meta (w_store w1) k) /\
    ns_state (w_store w2) = ns_state (w_store w1) /\
    ns_events (w_store w2) = ns_events (w_store w1) /\
    ns_index (w_store w2) = ns_index (w_store w1).
Proof.
  destruct w as [st c]; cbn [w_store]; intros Hm Hid.
  rewrite (update_meta_eq iid a s st c m Hm Hid).
  set (m1 := fst (meta_step a s m c)). set (c1 := snd (meta_step a s m c)).
  assert (Hm1 : ns_meta (st_set_meta st iid m1) iid = Some m1) by apply upd_same.
  assert (Hid1 : im_instance_id m1 = iid) by (unfold m1; rewrite meta_step_id; exact Hid).
  exists m1, (mkWorld (st_set_meta st iid m1) c1).
  rewrite (update_meta_eq iid a s _ c1 m1 Hm1 Hid1).
  unfold m1, c1; rewrite !meta_step_idem; cbn [fst snd].
  eexists; split; [reflexivity|]. split; [exact Hm1|]. split; [reflexivity|].
  cbn [w_clock w_store st_set_meta ns_meta ns_state ns_events ns_index].
  split; [reflexivity|]. split; [|auto].
  intros k; unfold upd; destruct (String.eqb iid k); reflexivity.
Qed.

Lemma update_meta_idempotent_witness :
  exists m1 w1' w2,
    update_meta_from_state "id1" "u2" (gather_state (VStr "x")) meta_only_world = (inr m1, w1') /\
    ns_meta (w_store w1') "id1" = Some m1 /\
    update_meta_from_state "id1" "u2" (gather_state (VStr "x")) w1' = (inr m1, w2) /\
    w_clock w2 = w_clock w1' /\
    (forall k, ns_meta (w_store w2) k = ns_meta (w_store w1') k) /\
    ns_state (w_store w2) = ns_state (w_store w1') /\
    ns_events (w_store w2) = ns_events (w_store w1') /\
    ns_index (w_store w2) = ns_index (w_store w1').
Proof.
  apply (update_meta_idempotent "id1" "u2" (gather_state (VStr "x")) meta_only_world
           (start_meta "ClaimWorkflow" "id1" "C1" "u1" "t0")); reflexivity.
Defined.

(** X14. [_add_to_index] appends an id to the index unless it is
    already there, touches no other namespace nor the clock, and a second call
    with the same id changes nothing. *)
Theorem add_to_index_spec iid w :
  fst (add_to_index iid w) = inr tt /\
  w_clock (snd (add_to_index iid w)) = w_clock w /\
  ns_state (w_store (snd (add_to_index iid w))) = ns_state (w_store w) /\
  ns_meta (w_store (snd (add_to_index iid w))) = ns_meta (w_store w) /\
  ns_events (w_store (snd (add_to_index iid w))) = ns_events (w_store w) /\
  index_of (w_store (snd (add_to_index iid w))) =
    (if existsb (String.eqb iid) (index_of (w_store w)) then index_of (w_store w)
     else index_of (w_store w) ++ [iid])%list /\
  add_to_index iid (snd (add_to_index iid w)) = (inr tt, snd (add_to_index iid w)).
Proof.
  destruct w as [st c]; rewrite add_index_eq; cbn [fst snd w_clock w_store].
  destruct (st_add_index_fields st iid) as (Fs & Fm & Fe).
  split; [reflexivity|]. split; [reflexivity|].
  split; [exact Fs|]. split; [exact Fm|]. split; [exact Fe|].
  split; [apply index_of_add|].
  rewrite add_index_eq. f_equal. f_equal.
  assert (I : In iid (index_of (st_add_index st iid))).
  { rewrite index_of_add. destruct (existsb (String.eqb iid) (index_of st)) eqn:E.
    - apply existsb_exists in E as (x & Hx & Ex); apply String.eqb_eq in Ex; subst; exact Hx.
    - apply in_app_iff; right; left; reflexivity. }
  unfold st_add_index at 1; fold (index_of (st_add_index st iid)); cbv zeta.
  destruct (existsb (String.eqb iid) (index_of (st_add_index st iid))) eqn:E;
    [reflexivity|].
  apply existsb_eqb_false in E; contradiction.
Qed.

(** X15. LangGraph's recursion limit never bites: under any
    [recursion_limit] of at least 7, [graph.invoke] gives what it gives under
    the default 25 that [_run] uses, and never [GraphRecursionError]; the
    model's [invoke] agrees with it. Under [recursion_limit] = 6 the longest
    path (Validate, Gather, Identify, Hold, Apply Suppression, Fulfill)
    raises [GraphRecursionError]. *)
Theorem invoke_limit_irrelevant s c limit :
  7 <= limit ->
  graph_invoke limit s c = graph_invoke recursion_limit s c /\
  invoke s c = graph_invoke recursion_limit s c /\
  fst (fst (graph_invoke recursion_limit s c)) <> IRRecursionLimit /\
  fst (fst (graph_invoke 6 longest_path_state c)) = IRRecursionLimit.
Proof.
  intros Hl.
  assert (E : invoke s c = graph_invoke recursion_limit s c)
    by (apply run_from_fuel; cbn; unfold recursion_limit; lia).
  split; [apply run_from_fuel; cbn; unfold recursion_limit; lia|].
  split; [exact E|]. split.
  - rewrite <- E. destruct (invoke s c) as [[ir s1] c1] eqn:Ei; cbn.
    exact (invoke_no_limit _ _ _ _ _ Ei).
  - reflexivity.
Qed.

Lemma invoke_limit_irrelevant_witness :
  7 <= 7 /\
  graph_invoke 7 longest_path_state test_clock =
    graph_invoke recursion_limit longest_path_state test_clock /\
  invoke longest_path_state test_clock =
    graph_invoke recursion_limit longest_path_state test_clock /\
  fst (fst (graph_invoke recursion_limit longest_path_state test_clock)) <> IRRecursionLimit /\
  fst (fst (graph_invoke 6 longest_path_state test_clock)) = IRRecursionLimit.
Proof.
  split; [lia|].
  exact (invoke_limit_irrelevant longest_path_state test_clock 7 ltac:(lia)).
Defined.
